(** * Freshworks CRM client: paged collection and deal enrichment

    A shallow embedding of [app/services/freshworks_service.py].  The
    service wraps the CRM's REST API: it fetches one page of contacts or
    deals, attaches to every deal its owner record and a stage name, and
    walks the pages of a view until the data ends.

    The embedding keeps the source's shape.  JSON documents are the values
    Python's [response.json()] builds; a Python exception is a [Raise] in
    an error monad; the HTTP client is a function from requests to
    responses, and the requests a call makes are written to a log, so that
    "page 2 was never fetched" is a statement about that log. *)

From stdpp Require Import gmap strings list fin_maps pretty.

Local Open Scope Z_scope.

(** ** Python values and exceptions *)

Module Py.

(** The values [json()] produces.  A JSON object becomes a [dict], which
    keeps its keys in insertion order: an association list whose first
    binding of a key is the live one.  A [str] is held as the UTF-8 bytes
    of its text, a character (code point) taking one to four of them.
    JSON numbers with a fraction or an exponent (Python [float]) are
    outside the model. *)
#[warnings="-register-all"] Inductive value : Type :=
| VNone
| VBool (b : bool)
| VInt (n : Z)
| VStr (s : string)
| VList (l : list value)
| VDict (d : list (string * value)).

(** The exceptions that can reach a caller of the service. *)
Inductive exn : Type :=
| HTTPStatusError (status : Z)
| TransportError (msg : string)
| JSONDecodeError
| ValueError (msg : string)
| KeyError (k : string)
| TypeError
| AttributeError.

Inductive result (A : Type) : Type :=
| Ok (a : A)
| Raise (e : exn).
Arguments Ok {A} a.
Arguments Raise {A} e.

#[global] Instance result_ret : MRet result := fun A a => Ok a.
#[global] Instance result_bind : MBind result := fun A B f r =>
  match r with
  | Ok a => f a
  | Raise e => Raise e
  end.

(** [bool(v)]: the test behind [if v:] and [not v]. *)
Definition truthy (v : value) : bool :=
  match v with
  | VNone => false
  | VBool b => b
  | VInt n => negb (n =? 0)
  | VStr s => negb (String.eqb s EmptyString)
  | VList l => match l with [] => false | _ => true end
  | VDict d => match d with [] => false | _ => true end
  end.

(** [d.get(k)] on the association list: the first binding of [k]. *)
Fixpoint dict_lookup (k : string) (d : list (string * value)) : option value :=
  match d with
  | [] => None
  | (k', v) :: rest => if String.eqb k' k then Some v else dict_lookup k rest
  end.

(** [d[k] = v] when [k] is already bound: the binding keeps its place. *)
Fixpoint dict_replace (k : string) (v : value) (d : list (string * value))
  : list (string * value) :=
  match d with
  | [] => []
  | (k', v') :: rest =>
      if String.eqb k' k then (k', v) :: rest
      else (k', v') :: dict_replace k v rest
  end.

(** [d[k] = v]: rebinds [k] in place, or adds it after the last key. *)
Definition dict_set (k : string) (v : value) (d : list (string * value))
  : list (string * value) :=
  match dict_lookup k d with
  | Some _ => dict_replace k v d
  | None => d ++ [(k, v)]
  end.

(** [o.get(k, dflt)].  Only a dict has a [get] method. *)
Definition py_get (o : value) (k : string) (dflt : value) : result value :=
  match o with
  | VDict d => Ok (default dflt (dict_lookup k d))
  | _ => Raise AttributeError
  end.

(** [o[k]] for a string key [k]: a dict without the key raises
    [KeyError]; a list or a str wants integer indices, the other values
    are not subscriptable. *)
Definition py_getitem (o : value) (k : string) : result value :=
  match o with
  | VDict d =>
      match dict_lookup k d with
      | Some v => Ok v
      | None => Raise (KeyError k)
      end
  | _ => Raise TypeError
  end.

(** [o[k] = v] for a string key [k]. *)
Definition py_setitem (o : value) (k : string) (v : value) : result value :=
  match o with
  | VDict d => Ok (VDict (dict_set k v d))
  | _ => Raise TypeError
  end.

(** A continuation byte of UTF-8, [10xxxxxx]: it goes on the character the
    bytes before it began. *)
Definition is_continuation (c : Ascii.ascii) : bool :=
  match c with
  | Ascii.Ascii _ _ _ _ _ _ b6 b7 => b7 && negb b6
  end.

(** Whether a text goes on the character before it. *)
Definition continues (s : string) : bool :=
  match s with
  | EmptyString => false
  | String c _ => is_continuation c
  end.

(** The characters of a str, each with all its bytes: a character begins
    at every byte that is no continuation byte. *)
Fixpoint code_points (s : string) : list string :=
  match s with
  | EmptyString => []
  | String c rest =>
      match code_points rest with
      | g :: gs =>
          if continues rest then String c g :: gs
          else String c EmptyString :: g :: gs
      | [] => [String c EmptyString]
      end
  end.

(** [iter(o)]: a list yields its elements, a str its characters (each a
    str of one character), a dict its keys; nothing else is iterable. *)
Definition chars (s : string) : list value := VStr <$> code_points s.

Definition py_iter (o : value) : result (list value) :=
  match o with
  | VList l => Ok l
  | VStr s => Ok (chars s)
  | VDict d => Ok ((fun kv => VStr kv.1) <$> d)
  | _ => Raise TypeError
  end.

(** [all.extend(o)]. *)
Definition list_extend (all : list value) (o : value) : result (list value) :=
  items ← py_iter o; Ok (all ++ items).

(** The hashable JSON values are the scalars.  Python compares and hashes
    [True] as [1] and [False] as [0], so a dict key is one of: *)
Inductive key : Type :=
| KNone
| KInt (n : Z)
| KStr (s : string).

#[global] Instance key_eq_dec : EqDecision key.
Proof. solve_decision. Defined.

Definition key_to_sum (k : key) : unit + (Z + string) :=
  match k with
  | KNone => inl ()
  | KInt n => inr (inl n)
  | KStr s => inr (inr s)
  end.

Definition key_of_sum (s : unit + (Z + string)) : key :=
  match s with
  | inl _ => KNone
  | inr (inl n) => KInt n
  | inr (inr s) => KStr s
  end.

#[global] Instance key_countable : Countable key.
Proof. apply (inj_countable' key_to_sum key_of_sum). by intros []. Defined.

(** [hash(v)] as far as a dict needs it: the key [v] is filed under, or
    [TypeError: unhashable type] for a list or a dict. *)
Definition py_hash (v : value) : result key :=
  match v with
  | VNone => Ok KNone
  | VBool b => Ok (KInt (if b then 1 else 0))
  | VInt n => Ok (KInt n)
  | VStr s => Ok (KStr s)
  | VList _ | VDict _ => Raise TypeError
  end.

(** [str(v)] of a scalar, as an f-string inserts it.  The text of a list
    or a dict is never observed: the only f-string of the service is the
    default of a dict lookup that raises on such a key. *)
Definition py_str (v : value) : string :=
  match v with
  | VNone => "None"
  | VBool b => if b then "True" else "False"
  | VInt n => pretty n
  | VStr s => s
  | VList _ | VDict _ => EmptyString
  end.

(** [page >= v] for an int [page]: ints and bools compare, every other
    JSON value raises [TypeError]. *)
Definition py_ge (page : Z) (v : value) : result bool :=
  match v with
  | VInt n => Ok (bool_decide (n ≤ page))
  | VBool b => Ok (bool_decide ((if b then 1 else 0) ≤ page))
  | _ => Raise TypeError
  end.

End Py.

Import Py.

(** ** The HTTP client *)

Module Httpx.

(** A GET request as [client.get] receives it. *)
Record request : Type := Request {
  url : string;
  headers : list (string * string);
  params : list (string * value)
}.

(** A response: its status code and what [response.json()] returns. *)
Record response : Type := Response {
  status_code : Z;
  json : result value
}.

(** [response.raise_for_status()]: every status outside 2xx raises. *)
Definition raise_for_status (r : response) : result unit :=
  if bool_decide (200 ≤ status_code r < 300) then Ok ()
  else Raise (HTTPStatusError (status_code r)).

(** An [AsyncClient]: the answer, or the transport's exception, for each
    request. *)
Definition client : Type := request → result response.

End Httpx.

Import Httpx.

(** ** The service *)

(** A computation that sends requests: it extends the log of requests
    sent so far and returns a value or raises. *)
Definition M (A : Type) : Type := list request → list request * result A.

Definition lift {A} (r : result A) : M A := fun log => (log, r).

Definition bindM {A B} (m : M A) (f : A → M B) : M B := fun log =>
  match m log with
  | (log', Ok a) => f a log'
  | (log', Raise e) => (log', Raise e)
  end.

Record FreshworksService : Type := {
  domain : string;
  api_key : string;
  contacts_view_id : string;
  deals_view_id : string;
  base_url : string;
  service_headers : list (string * string)
}.

(** [FreshworksService.__init__], reading the environment through
    [getenv]. *)
Definition __init__ (getenv : string → option string) : result FreshworksService :=
  let domain := getenv "FRESHWORKS_DOMAIN" in
  let api_key := getenv "FRESHWORKS_API_KEY" in
  match domain, api_key with
  | Some dom, Some api =>
      if String.eqb dom EmptyString || String.eqb api EmptyString then
        Raise (ValueError "FRESHWORKS_DOMAIN and FRESHWORKS_API_KEY must be set in environment")
      else
        Ok {| domain := dom;
              api_key := api;
              contacts_view_id := default "402014829835" (getenv "CONTACTS_VIEW_ID");
              deals_view_id := default "402014829847" (getenv "DEALS_VIEW_ID");
              base_url := "https://" +:+ dom +:+ ".myfreshworks.com/crm/sales/api";
              service_headers :=
                [("Authorization", "Token token=" +:+ api);
                 ("Content-Type", "application/json")] |}
  | _, _ =>
      Raise (ValueError "FRESHWORKS_DOMAIN and FRESHWORKS_API_KEY must be set in environment")
  end.

(** The request [_make_request] sends for an endpoint. *)
Definition request_for (self : FreshworksService) (endpoint : string)
    (params : list (string * value)) : request :=
  {| url := base_url self +:+ "/" +:+ endpoint;
     headers := service_headers self;
     params := params |}.

(** What [_make_request] returns or raises once the request is sent. *)
Definition respond (http : client) (rq : request) : result value :=
  response ← http rq;
  _ ← raise_for_status response;
  json response.

Definition _make_request (self : FreshworksService) (http : client)
    (endpoint : string) (params : list (string * value)) : M value :=
  fun log =>
    let rq := request_for self endpoint params in
    (log ++ [rq], respond http rq).

(** [if view_id:] on an [Optional[int]]. *)
Definition view_given (view_id : option Z) : option Z :=
  match view_id with
  | Some v => if v =? 0 then None else Some v
  | None => None
  end.

Definition get_all_contacts (self : FreshworksService) (http : client)
    (page per_page : Z) (view_id : option Z) (include : string) : M value :=
  let params := [("page", VInt page); ("per_page", VInt per_page)] in
  let endpoint :=
    match view_given view_id with
    | Some v => "contacts/view/" +:+ pretty v
    | None => "contacts/view/" +:+ contacts_view_id self
    end in
  _make_request self http endpoint params.

(** The stage table of [_get_stage_name], in source order. *)
Definition stage_table : list (key * string) :=
  [ (KInt 402001815652, "Closed Won");
    (KInt 402001815651, "Closed Lost");
    (KInt 402001821236, "Account Not Funded");
    (KInt 402001842536, "Account Funded");
    (KInt 402001815650, "KYC Created");
    (KInt 402001815649, "Proposal Sent");
    (KInt 402001815648, "Qualified");
    (KInt 402001815647, "Contact Made");
    (KInt 402001815646, "New Lead") ].

Definition stage_map : gmap key string := list_to_map stage_table.

(** [stage_map.get(stage_id, f"Stage {stage_id}")]. *)
Definition _get_stage_name (stage_id : value) : result string :=
  k ← py_hash stage_id;
  Ok (default ("Stage " +:+ py_str stage_id) (stage_map !! k)).

(** [{user["id"]: user for user in users}], added to [owner_map]. *)
Fixpoint build_owner_map (users : list value) (owner_map : gmap key value)
  : result (gmap key value) :=
  match users with
  | [] => Ok owner_map
  | user :: rest =>
      id ← py_getitem user "id";
      k ← py_hash id;
      build_owner_map rest (<[k := user]> owner_map)
  end.

(** The first half of the loop body of [get_all_deals]:
    [if owner_id and owner_id in owner_map: deal["owner"] = owner_map[owner_id]]. *)
Definition attach_owner (owner_map : gmap key value) (deal : value) : result value :=
  owner_id ← py_get deal "owner_id" VNone;
  if truthy owner_id then
    k ← py_hash owner_id;
    match owner_map !! k with
    | Some user => py_setitem deal "owner" user
    | None => Ok deal
    end
  else Ok deal.

(** The second half: [if stage_id: deal["deal_stage"] = {...}]. *)
Definition attach_stage (deal : value) : result value :=
  stage_id ← py_get deal "deal_stage_id" VNone;
  if truthy stage_id then
    name ← _get_stage_name stage_id;
    py_setitem deal "deal_stage" (VDict [("id", stage_id); ("name", VStr name)])
  else Ok deal.

(** One turn of [for deal in deals]. *)
Definition enrich_deal (owner_map : gmap key value) (deal : value) : result value :=
  deal ← attach_owner owner_map deal;
  attach_stage deal.

(** The whole [for] loop; the first exception ends it. *)
Fixpoint enrich_deals (owner_map : gmap key value) (deals : list value)
  : result (list value) :=
  match deals with
  | [] => Ok []
  | deal :: rest =>
      deal' ← enrich_deal owner_map deal;
      rest' ← enrich_deals owner_map rest;
      Ok (deal' :: rest')
  end.

(** The loop mutates the deal objects the response holds.  When the deals
    came from a list under ["deals"], the response afterwards holds the
    enriched deals there; in every other case no deal was touched. *)
Definition with_deals (result deals : value) (enriched : list value) : value :=
  match result, deals with
  | VDict d, VList _ => VDict (dict_replace "deals" (VList enriched) d)
  | _, _ => result
  end.

(** Lines 98-121 of [get_all_deals]: what happens to the response. *)
Definition enrich (result : value) : Py.result value :=
  users ← py_get result "users" (VList []);
  deals ← py_get result "deals" (VList []);
  user_list ← py_iter users;
  owner_map ← build_owner_map user_list ∅;
  deal_list ← py_iter deals;
  enriched ← enrich_deals owner_map deal_list;
  Ok (with_deals result deals enriched).

Definition get_all_deals (self : FreshworksService) (http : client)
    (page per_page : Z) (view_id : option Z) (include : string) : M value :=
  let params :=
    [("page", VInt page); ("per_page", VInt per_page);
     ("sort", VStr "amount"); ("include", VStr include)] in
  let endpoint :=
    match view_given view_id with
    | Some v => "deals/view/" +:+ pretty v
    | None => "deals/view/" +:+ deals_view_id self
    end in
  bindM (_make_request self http endpoint params) (fun result => lift (enrich result)).

Definition get_contact_by_id (self : FreshworksService) (http : client)
    (contact_id : Z) (include : string) : M value :=
  _make_request self http ("contacts/" +:+ pretty contact_id) [("include", VStr include)].

Definition get_deal_by_id (self : FreshworksService) (http : client)
    (deal_id : Z) (include : string) : M value :=
  _make_request self http ("deals/" +:+ pretty deal_id) [("include", VStr include)].

(** How one turn of the [while] loop ends. *)
Inductive turn : Type :=
| Break (all : list value)
| Next (all : list value).

(** The loop body of the two paginated collectors after the fetch; [key]
    is ["contacts"] or ["deals"]. *)
Definition page_turn (key : string) (page : Z) (all : list value) (result : value)
  : Py.result turn :=
  items ← py_get result key (VList []);
  if negb (truthy items) then Ok (Break all)
  else
    all ← list_extend all items;
    meta ← py_get result "meta" (VDict []);
    total_pages ← py_get meta "total_pages" (VInt 1);
    stop ← py_ge page total_pages;
    if (stop : bool) then Ok (Break all) else Ok (Next all).

(** [while page <= max_pages: ...], the loop both collectors share: they
    differ in the method that fetches a page and in the key of the items.
    [fuel] bounds the number of guard evaluations; [None] means the bound
    was too small. *)
Fixpoint paginated (key : string) (fetch : Z → M value) (max_pages : Z)
    (fuel : nat) (page : Z) (all : list value) (log : list request)
  : option (list request * Py.result (list value)) :=
  match fuel with
  | O => None
  | S fuel =>
      if bool_decide (page ≤ max_pages) then
        match fetch page log with
        | (log, Raise e) => Some (log, Raise e)
        | (log, Ok result) =>
            match page_turn key page all result with
            | Raise e => Some (log, Raise e)
            | Ok (Break all) => Some (log, Ok all)
            | Ok (Next all) => paginated key fetch max_pages fuel (page + 1) all log
            end
        end
      else Some (log, Ok all)
  end.

(** The guard is evaluated at most [max_pages + 1] times. *)
Definition enough (max_pages : Z) : nat := S (Z.to_nat max_pages).

Definition get_all_contacts_paginated (self : FreshworksService) (http : client)
    (max_pages : Z) : option (list request * Py.result (list value)) :=
  paginated "contacts"
    (fun page => get_all_contacts self http page 100 None "owner")
    max_pages (enough max_pages) 1 [] [].

Definition get_all_deals_paginated (self : FreshworksService) (http : client)
    (max_pages : Z) : option (list request * Py.result (list value)) :=
  paginated "deals"
    (fun page => get_all_deals self http page 100 None "owner")
    max_pages (enough max_pages) 1 [] [].

(** ** Vocabulary of the specifications *)

(** The two collections the service pages through. *)
Inductive resource : Type :=
| Contacts
| Deals.

(** The key the items of a page are filed under. *)
Definition item_key (res : resource) : string :=
  match res with
  | Contacts => "contacts"
  | Deals => "deals"
  end.

(** The request a collector sends for a page. *)
Definition page_request (self : FreshworksService) (res : resource) (page : Z) : request :=
  match res with
  | Contacts =>
      request_for self ("contacts/view/" +:+ contacts_view_id self)
        [("page", VInt page); ("per_page", VInt 100)]
  | Deals =>
      request_for self ("deals/view/" +:+ deals_view_id self)
        [("page", VInt page); ("per_page", VInt 100);
         ("sort", VStr "amount"); ("include", VStr "owner")]
  end.

(** What the collector's fetch ([get_all_contacts], [get_all_deals])
    hands back for a page. *)
Definition page_source (self : FreshworksService) (http : client) (res : resource)
    (page : Z) : result value :=
  match res with
  | Contacts => respond http (page_request self Contacts page)
  | Deals => respond http (page_request self Deals page) ≫= enrich
  end.

Definition fetch_page (self : FreshworksService) (http : client) (res : resource)
    (page : Z) : M value :=
  match res with
  | Contacts => get_all_contacts self http page 100 None "owner"
  | Deals => get_all_deals self http page 100 None "owner"
  end.

Definition collect (self : FreshworksService) (http : client) (res : resource)
    (max_pages : Z) : option (list request * result (list value)) :=
  match res with
  | Contacts => get_all_contacts_paginated self http max_pages
  | Deals => get_all_deals_paginated self http max_pages
  end.

(** The requests for pages [1 .. n]. *)
Definition requests (self : FreshworksService) (res : resource) (n : nat) : list request :=
  page_request self res <$> seqZ 1 (Z.of_nat n).

(** The item list of a page: the list under [key], or the empty default
    when the key is missing; [None] when something else is filed there. *)
Definition page_items (key : string) (d : list (string * value)) : option (list value) :=
  match default (VList []) (dict_lookup key d) with
  | VList l => Some l
  | _ => None
  end.

Definition items_of (key : string) (d : list (string * value)) : list value :=
  default [] (page_items key d).

(** The [total_pages] a page announces, with the defaults of the source. *)
Definition total_pages_of (result : value) : Py.result value :=
  meta ← py_get result "meta" (VDict []);
  py_get meta "total_pages" (VInt 1).

(** Whether the metadata of a page asks for a further page. *)
Definition more_pages (page : Z) (result : value) : Py.result bool :=
  total_pages ← total_pages_of result;
  stop ← py_ge page total_pages;
  Ok (negb stop).

(** [pages] are the responses to the fetches of pages [1, 2, ...]. *)
Definition fetched (source : Z → result value) (pages : list (list (string * value))) : Prop :=
  ∀ (i : nat) d, pages !! i = Some d → source (Z.of_nat i + 1) = Ok (VDict d).

(** A page that holds items and announces more pages after [page]. *)
Definition goes_on (key : string) (page : Z) (d : list (string * value)) : Prop :=
  (∃ l, page_items key d = Some l ∧ l ≠ []) ∧ more_pages page (VDict d) = Ok true.

(** Each of [pages], the responses to pages [1, 2, ...], goes on. *)
Definition all_go_on (key : string) (pages : list (list (string * value))) : Prop :=
  ∀ (i : nat) d, pages !! i = Some d → goes_on key (Z.of_nat i + 1) d.

(** Where the walk through the pages ends after [before] pages that went
    on, at a page with items [l]: the page is empty, or its metadata asks
    for no further page, or it is page [max_pages]. *)
Definition ends_walk (max_pages : Z) (before : nat) (last : list (string * value))
    (l : list value) : Prop :=
  l = [] ∨
  more_pages (Z.of_nat before + 1) (VDict last) = Ok false ∨
  (more_pages (Z.of_nat before + 1) (VDict last) = Ok true ∧
   Z.of_nat before + 1 = max_pages).

(** A page without [total_pages]: no ["meta"], or a ["meta"] object that
    lacks the field. *)
Definition lacks_total_pages (d : list (string * value)) : Prop :=
  dict_lookup "meta" d = None ∨
  ∃ meta, dict_lookup "meta" d = Some (VDict meta) ∧ dict_lookup "total_pages" meta = None.

(** A [total_pages] that is no number. *)
Definition non_numeric (v : value) : Prop :=
  match v with
  | VInt _ | VBool _ => False
  | _ => True
  end.

(** The key a user record is filed under in the owner lookup. *)
Definition user_key (user : value) : option key :=
  match py_getitem user "id" ≫= py_hash with
  | Ok k => Some k
  | Raise _ => None
  end.

(** The user the lookup holds for [k]: the last of [users] with that id. *)
Definition last_user (k : key) (users : list value) : option value :=
  last (filter (fun user => user_key user = Some k) users).

(** A field that is absent, falsy or hashable: reading it and using it as
    a dict key cannot raise. *)
Definition usable (field : string) (d : list (string * value)) : Prop :=
  ∀ v, dict_lookup field d = Some v → truthy v = true → ∃ k, py_hash v = Ok k.

(** A user record with an id that can key the lookup. *)
Definition keyed_user (user : value) : Prop := ∃ k, user_key user = Some k.

(** A deal record whose two id fields are absent, falsy or hashable. *)
Definition plain_deal (deal : value) : Prop :=
  ∃ d, deal = VDict d ∧ usable "owner_id" d ∧ usable "deal_stage_id" d.

(** The [while] loop as a relation, free of fuel: from [page], with [all]
    collected and [log] sent so far, the loop ends with a log and an
    outcome.  [rq] is the request sent for a page and [source] what the
    fetch of that page hands back. *)
Inductive walk (key : string) (max_pages : Z) (rq : Z → request)
    (source : Z → result value)
  : Z → list value → list request → list request * result (list value) → Prop :=
| walk_done page all log :
    max_pages < page →
    walk key max_pages rq source page all log (log, Ok all)
| walk_raise page all log e :
    page ≤ max_pages →
    source page ≫= page_turn key page all = Raise e →
    walk key max_pages rq source page all log (log ++ [rq page], Raise e)
| walk_break page all log all' :
    page ≤ max_pages →
    source page ≫= page_turn key page all = Ok (Break all') →
    walk key max_pages rq source page all log (log ++ [rq page], Ok all')
| walk_next page all log all' end_state :
    page ≤ max_pages →
    source page ≫= page_turn key page all = Ok (Next all') →
    walk key max_pages rq source (page + 1) all' (log ++ [rq page]) end_state →
    walk key max_pages rq source page all log end_state.

(** ** Sample data *)

Definition sample_service : FreshworksService :=
  {| domain := "acme";
     api_key := "k3y";
     contacts_view_id := "402014829835";
     deals_view_id := "402014829847";
     base_url := "https://acme.myfreshworks.com/crm/sales/api";
     service_headers :=
       [("Authorization", "Token token=k3y"); ("Content-Type", "application/json")] |}.

(** The page number a request asks for. *)
Definition asked_page (rq : request) : Z :=
  match dict_lookup "page" (params rq) with
  | Some (VInt p) => p
  | _ => 0
  end.

(** A server that answers page [i] with the [i]-th of [pages], and 404
    past the end. *)
Definition serve (pages : list value) : client := fun rq =>
  match pages !! Z.to_nat (asked_page rq - 1) with
  | Some body => Ok (Response 200 (Ok body))
  | None => Ok (Response 404 (Raise JSONDecodeError))
  end.

Definition item (n : Z) : value := VDict [("id", VInt n)].

Definition page_of (key : string) (items : list value) (meta : list (string * value))
  : list (string * value) :=
  [(key, VList items); ("meta", VDict meta)].

(** Three pages of two contacts; contact 2 shows up on pages 1 and 2. *)
Definition three_pages : list (list (string * value)) :=
  [ page_of "contacts" [item 1; item 2] [("total_pages", VInt 3)];
    page_of "contacts" [item 2; item 3] [("total_pages", VInt 3)];
    page_of "contacts" [item 4; item 5] [("total_pages", VInt 3)] ].

Definition user_a : value := VDict [("id", VInt 5); ("name", VStr "A")].
Definition user_b : value := VDict [("id", VInt 5); ("name", VStr "B")].

Definition sample_deal : list (string * value) :=
  [("id", VInt 1); ("owner_id", VInt 5); ("deal_stage_id", VInt 402001815652)].

(** A deal whose stage id is the number zero. *)
Definition zero_stage_deal : list (string * value) :=
  [("id", VInt 2); ("deal_stage_id", VInt 0)].

(** A deal owned by the user with id zero. *)
Definition user_zero : value := VDict [("id", VInt 0); ("name", VStr "Z")].

Definition zero_owner_deal : list (string * value) :=
  [("id", VInt 3); ("owner_id", VInt 0)].

Definition zero_owner_response : value :=
  VDict [("deals", VList [VDict zero_owner_deal]); ("users", VList [user_zero])].

(** A response in which a user record has no id. *)
Definition anonymous_user_response : value :=
  VDict [("deals", VList []); ("users", VList [VDict [("name", VStr "A")]])].

(** A response whose every optional field is missing. *)
Definition bare_response : list (string * value) :=
  [("deals", VList [VDict [("name", VStr "Deal")]])].

(** A first page that announces its page count as text. *)
Definition text_total_page : list (string * value) :=
  page_of "contacts" [item 1] [("total_pages", VStr "3")].

(** A first page that announces no pages at all. *)
Definition zero_total_page : list (string * value) :=
  page_of "contacts" [item 1] [("total_pages", VInt 0)].

(** A first page without items that announces five pages. *)
Definition empty_first_page : list (string * value) :=
  page_of "contacts" [] [("total_pages", VInt 5)].

(** A page without metadata. *)
Definition no_meta_page : list (string * value) :=
  [("contacts", VList [item 1])].

(** A client whose transport fails on one page. *)
Definition failing_at (page : Z) (e : exn) (http : client) : client := fun rq =>
  if bool_decide (asked_page rq = page) then Raise e else http rq.

(** A page of one deal with two users of the same id. *)
Definition sample_response : value :=
  VDict [("deals", VList [VDict sample_deal]); ("users", VList [user_a; user_b])].

(** ** Further vocabulary *)

(** The environment holds a domain and an API key, neither empty. *)
Definition configured (getenv : string → option string) (dom api : string) : Prop :=
  getenv "FRESHWORKS_DOMAIN" = Some dom ∧ dom ≠ EmptyString ∧
  getenv "FRESHWORKS_API_KEY" = Some api ∧ api ≠ EmptyString.

(** The view a listing call addresses: the one given, unless it is
    missing or zero. *)
Definition chosen_view (configured_view : string) (view_id : option Z) : string :=
  match view_id with
  | Some v => if bool_decide (v = 0) then configured_view else pretty v
  | None => configured_view
  end.

(** What a fetched page adds to the collection: the elements its items
    value yields when that value is truthy, nothing otherwise. *)
Definition page_yield (key : string) (fetched_page : result value) : list value :=
  match fetched_page with
  | Ok (VDict d) =>
      let items := default (VList []) (dict_lookup key d) in
      if truthy items then
        match py_iter items with
        | Ok l => l
        | Raise _ => []
        end
      else []
  | _ => []
  end.

(** A deal record that carries the stage of its truthy [deal_stage_id]. *)
Definition staged (deal : value) : Prop :=
  ∃ d, deal = VDict d ∧
    ∀ sid, dict_lookup "deal_stage_id" d = Some sid → truthy sid = true →
      ∃ name, _get_stage_name sid = Ok name ∧
              dict_lookup "deal_stage" d = Some (VDict [("id", sid); ("name", VStr name)]).

(** An environment with the two mandatory variables and one view id. *)
Definition sample_env (name : string) : option string :=
  if String.eqb name "FRESHWORKS_DOMAIN" then Some "acme"
  else if String.eqb name "FRESHWORKS_API_KEY" then Some "k3y"
  else if String.eqb name "DEALS_VIEW_ID" then Some "77"
  else None.

(** An environment whose API key is set but empty. *)
Definition keyless_env (name : string) : option string :=
  if String.eqb name "FRESHWORKS_DOMAIN" then Some "acme"
  else if String.eqb name "FRESHWORKS_API_KEY" then Some EmptyString
  else None.

(** A server that answers every request with the same response. *)
Definition always (r : response) : client := fun _ => Ok r.


(** A page of one contact whose metadata is [null]. *)
Definition null_meta_page : list (string * value) :=
  [("contacts", VList [item 9]); ("meta", VNone)].

(** Two pages of deals, the second announcing no further page. *)
Definition deal_pages : list value :=
  [ VDict [("deals", VList [VDict sample_deal]); ("users", VList [user_a]);
           ("meta", VDict [("total_pages", VInt 2)])];
    VDict [("deals", VList [VDict zero_stage_deal]);
           ("meta", VDict [("total_pages", VInt 2)])] ].

(** * Verification *)

(** ** Facts about dicts *)

Section dict_facts.
Implicit Types (k : string) (v : value) (d : list (string * value)).

Lemma dict_lookup_replace_eq k v d :
  is_Some (dict_lookup k d) → dict_lookup k (dict_replace k v d) = Some v.
Proof.
  induction d as [|[k' v'] d IH]; simpl.
  - by intros [? ?].
  - destruct (String.eqb k' k) eqn:E; simpl; rewrite E; auto.
Qed.

Lemma dict_lookup_replace_ne k k' v d :
  k ≠ k' → dict_lookup k' (dict_replace k v d) = dict_lookup k' d.
Proof.
  intros Hne. induction d as [|[k0 v0] d IH]; simpl; [done|].
  destruct (String.eqb k0 k) eqn:E; simpl.
  - apply String.eqb_eq in E as ->.
    by destruct (String.eqb k k') eqn:E'; [apply String.eqb_eq in E'|].
  - by rewrite IH.
Qed.

Lemma dict_replace_absent k v d :
  dict_lookup k d = None → dict_replace k v d = d.
Proof.
  induction d as [|[k' v'] d IH]; simpl; [done|].
  destruct (String.eqb k' k); [done|]. intros H. by rewrite IH.
Qed.

Lemma dict_replace_id k v d :
  dict_lookup k d = Some v → dict_replace k v d = d.
Proof.
  induction d as [|[k' v'] d IH]; simpl; [done|].
  destruct (String.eqb k' k); [by intros [= ->]|]. intros H. by rewrite IH.
Qed.

Lemma dict_replace_replace k v d :
  dict_replace k v (dict_replace k v d) = dict_replace k v d.
Proof.
  induction d as [|[k' v'] d IH]; simpl; [done|].
  destruct (String.eqb k' k) eqn:E; simpl; rewrite E; [done|]. by rewrite IH.
Qed.

Lemma dict_lookup_snoc k k' v d :
  dict_lookup k' (d ++ [(k, v)]) =
  match dict_lookup k' d with
  | Some w => Some w
  | None => if String.eqb k k' then Some v else None
  end.
Proof.
  induction d as [|[k0 v0] d IH]; simpl; [done|].
  by destruct (String.eqb k0 k').
Qed.

Lemma dict_lookup_set_eq k v d : dict_lookup k (dict_set k v d) = Some v.
Proof.
  unfold dict_set. destruct (dict_lookup k d) eqn:E.
  - apply dict_lookup_replace_eq. by rewrite E.
  - by rewrite dict_lookup_snoc, E, String.eqb_refl.
Qed.

Lemma dict_lookup_set_ne k k' v d :
  k ≠ k' → dict_lookup k' (dict_set k v d) = dict_lookup k' d.
Proof.
  intros Hne. unfold dict_set. destruct (dict_lookup k d).
  - by apply dict_lookup_replace_ne.
  - rewrite dict_lookup_snoc. destruct (dict_lookup k' d); [done|].
    by destruct (String.eqb k k') eqn:E; [apply String.eqb_eq in E|].
Qed.

Lemma dict_set_id k v d : dict_lookup k d = Some v → dict_set k v d = d.
Proof. intros H. unfold dict_set. rewrite H. by apply dict_replace_id. Qed.
End dict_facts.


(** ** The stage table *)

Lemma stage_table_keys_distinct : NoDup stage_table.*1.
Proof. apply (bool_decide_unpack _). by vm_compute. Qed.

Lemma get_stage_name_hashed v k :
  py_hash v = Ok k →
  _get_stage_name v = Ok (default ("Stage " +:+ py_str v) (stage_map !! k)).
Proof. intros H. unfold _get_stage_name. by rewrite H. Qed.

Lemma get_stage_name_unhashable v :
  py_hash v = Raise TypeError → _get_stage_name v = Raise TypeError.
Proof. intros H. unfold _get_stage_name. by rewrite H. Qed.

(** ** The owner lookup *)

Lemma user_key_Some user k :
  user_key user = Some k ↔ ∃ id, py_getitem user "id" = Ok id ∧ py_hash id = Ok k.
Proof.
  unfold user_key. split.
  - destruct (py_getitem user "id") as [id|] eqn:E; simpl; [|done].
    destruct (py_hash id) eqn:E'; [|done]. intros [= ->]. eauto.
  - intros (id & -> & H). simpl. by rewrite H.
Qed.

Lemma last_user_snoc k users user :
  last_user k (users ++ [user]) =
  if decide (user_key user = Some k) then Some user else last_user k users.
Proof.
  unfold last_user. rewrite filter_app, filter_cons, filter_nil.
  case_decide.
  - by rewrite last_snoc.
  - by rewrite app_nil_r.
Qed.

Lemma last_user_cons k users user :
  last_user k (user :: users) =
  match last_user k users with
  | Some u => Some u
  | None => if decide (user_key user = Some k) then Some user else None
  end.
Proof.
  unfold last_user. rewrite filter_cons. case_decide.
  - rewrite last_cons. by destruct (last _).
  - by destruct (last _).
Qed.

Lemma build_owner_map_lookup users : ∀ (m0 m : gmap key value) k,
  build_owner_map users m0 = Ok m →
  m !! k = match last_user k users with Some u => Some u | None => m0 !! k end.
Proof.
  induction users as [|user users IH]; intros m0 m k; simpl.
  - by intros [= ->].
  - destruct (py_getitem user "id") as [id|] eqn:Hid; simpl; [|done].
    destruct (py_hash id) as [k'|] eqn:Hk; simpl; [|done].
    intros H. rewrite (IH _ _ k H), last_user_cons.
    destruct (last_user k users); [done|].
    assert (user_key user = Some k') as Hu by (apply user_key_Some; eauto).
    rewrite Hu. case_decide as Hd.
    + injection Hd as ->. by rewrite lookup_insert_eq.
    + rewrite lookup_insert_ne; [done|congruence].
Qed.

Lemma build_owner_map_keyed users : ∀ m0 : gmap key value,
  Forall keyed_user users → ∃ m, build_owner_map users m0 = Ok m.
Proof.
  induction users as [|user users IH]; intros m0 Hall; simpl; [eauto|].
  apply Forall_cons in Hall as [[k Hk] Hall].
  apply user_key_Some in Hk as (id & Hid & Hk).
  rewrite Hid; simpl; rewrite Hk; simpl. by apply IH.
Qed.

Lemma build_owner_map_no_id users0 ud users1 : ∀ m0 : gmap key value,
  Forall keyed_user users0 → dict_lookup "id" ud = None →
  build_owner_map (users0 ++ VDict ud :: users1) m0 = Raise (KeyError "id").
Proof.
  induction users0 as [|user users0 IH]; intros m0 Hall Hno; simpl.
  - by rewrite Hno.
  - apply Forall_cons in Hall as [[k Hk] Hall].
    apply user_key_Some in Hk as (id & Hid & Hk).
    rewrite Hid; simpl; rewrite Hk; simpl. by apply IH.
Qed.

(** ** One deal *)

Section one_deal.
Context (m : gmap key value) (d : list (string * value)).

Lemma attach_owner_found oid k u :
  dict_lookup "owner_id" d = Some oid → truthy oid = true →
  py_hash oid = Ok k → m !! k = Some u →
  attach_owner m (VDict d) = Ok (VDict (dict_set "owner" u d)).
Proof.
  intros Hoid Ht Hk Hu. unfold attach_owner. simpl.
  by rewrite Hoid; simpl; rewrite Ht, Hk; simpl; rewrite Hu.
Qed.

Lemma attach_owner_falsy :
  truthy (default VNone (dict_lookup "owner_id" d)) = false →
  attach_owner m (VDict d) = Ok (VDict d).
Proof. intros Ht. unfold attach_owner. simpl. by rewrite Ht. Qed.

Lemma attach_owner_unknown k :
  py_hash (default VNone (dict_lookup "owner_id" d)) = Ok k → m !! k = None →
  attach_owner m (VDict d) = Ok (VDict d).
Proof.
  intros Hk Hu. unfold attach_owner. simpl.
  destruct (truthy _); [|done]. by rewrite Hk; simpl; rewrite Hu.
Qed.

Lemma attach_owner_unhashable oid :
  dict_lookup "owner_id" d = Some oid → truthy oid = true →
  py_hash oid = Raise TypeError →
  attach_owner m (VDict d) = Raise TypeError.
Proof.
  intros Hoid Ht Hk. unfold attach_owner. simpl.
  by rewrite Hoid; simpl; rewrite Ht, Hk.
Qed.

(** With a usable [owner_id] the step succeeds and writes at most
    ["owner"]. *)
Lemma attach_owner_usable :
  usable "owner_id" d →
  ∃ d1, attach_owner m (VDict d) = Ok (VDict d1) ∧
        ∀ f, f ≠ "owner" → dict_lookup f d1 = dict_lookup f d.
Proof.
  intros Hus. unfold attach_owner. simpl.
  destruct (dict_lookup "owner_id" d) as [oid|] eqn:Hoid; simpl; [|eauto].
  destruct (truthy oid) eqn:Ht; [|eauto].
  destruct (Hus oid Hoid Ht) as [k ->]. simpl.
  destruct (m !! k) as [u|]; [|eauto]. simpl.
  eexists; split; [done|]. intros f Hf. by apply dict_lookup_set_ne.
Qed.

Lemma attach_stage_truthy sid name :
  dict_lookup "deal_stage_id" d = Some sid → truthy sid = true →
  _get_stage_name sid = Ok name →
  attach_stage (VDict d) =
    Ok (VDict (dict_set "deal_stage" (VDict [("id", sid); ("name", VStr name)]) d)).
Proof.
  intros Hsid Ht Hn. unfold attach_stage. simpl.
  by rewrite Hsid; simpl; rewrite Ht, Hn.
Qed.

Lemma attach_stage_falsy :
  truthy (default VNone (dict_lookup "deal_stage_id" d)) = false →
  attach_stage (VDict d) = Ok (VDict d).
Proof. intros Ht. unfold attach_stage. simpl. by rewrite Ht. Qed.

Lemma attach_stage_unhashable sid :
  dict_lookup "deal_stage_id" d = Some sid → truthy sid = true →
  py_hash sid = Raise TypeError →
  attach_stage (VDict d) = Raise TypeError.
Proof.
  intros Hsid Ht Hk. unfold attach_stage. simpl.
  by rewrite Hsid; simpl; rewrite Ht, (get_stage_name_unhashable _ Hk).
Qed.

Lemma attach_stage_usable :
  usable "deal_stage_id" d →
  ∃ d1, attach_stage (VDict d) = Ok (VDict d1) ∧
        ∀ f, f ≠ "deal_stage" → dict_lookup f d1 = dict_lookup f d.
Proof.
  intros Hus. unfold attach_stage. simpl.
  destruct (dict_lookup "deal_stage_id" d) as [sid|] eqn:Hsid; simpl; [|eauto].
  destruct (truthy sid) eqn:Ht; [|eauto].
  destruct (Hus sid Hsid Ht) as [k Hk].
  rewrite (get_stage_name_hashed _ _ Hk). simpl.
  eexists; split; [done|]. intros f Hf. by apply dict_lookup_set_ne.
Qed.
End one_deal.

Lemma usable_ext field d d1 :
  dict_lookup field d1 = dict_lookup field d → usable field d → usable field d1.
Proof. intros Heq Hus v. rewrite Heq. apply Hus. Qed.

Lemma enrich_deal_plain m deal :
  plain_deal deal → ∃ d', enrich_deal m deal = Ok (VDict d').
Proof.
  intros (d & -> & Ho & Hs). unfold enrich_deal.
  destruct (attach_owner_usable m d Ho) as (d1 & -> & Hd1). simpl.
  destruct (attach_stage_usable d1) as (d2 & -> & _); [|eauto].
  eapply usable_ext; [|done]. by apply Hd1.
Qed.

Lemma enrich_deals_plain m deals :
  Forall plain_deal deals → ∃ deals', enrich_deals m deals = Ok deals'.
Proof.
  induction 1 as [|deal deals Hd _ [deals' IH]]; simpl; [eauto|].
  destruct (enrich_deal_plain m deal Hd) as [d' ->]. simpl.
  rewrite IH. simpl. eauto.
Qed.


(** ** Stage names *)

(** C6.  For every integer id, [_get_stage_name] looks the id up in the
    nine-entry stage table by exact match and returns the name filed
    there; when no entry has that id it returns "Stage " followed by the
    decimal text of the id.  In particular 402001815652 is "Closed Won"
    and 999 is "Stage 999". *)
Theorem get_stage_name_exact_or_fallback (id : Z) :
  (∀ name, (KInt id, name) ∈ stage_table → _get_stage_name (VInt id) = Ok name) ∧
  ((∀ name, (KInt id, name) ∉ stage_table) →
     _get_stage_name (VInt id) = Ok ("Stage " +:+ pretty id)) ∧
  length stage_table = 9%nat ∧
  _get_stage_name (VInt 402001815652) = Ok "Closed Won" ∧
  _get_stage_name (VInt 999) = Ok "Stage 999" ∧
  _get_stage_name (VInt (-7)) = Ok "Stage -7".
Proof.
  split_and!; try reflexivity.
  - intros name Hin. rewrite (get_stage_name_hashed _ (KInt id)) by done.
    unfold stage_map.
    by rewrite (elem_of_list_to_map_1 _ _ _ stage_table_keys_distinct Hin).
  - intros Hmiss. rewrite (get_stage_name_hashed _ (KInt id)) by done.
    unfold stage_map. rewrite (not_elem_of_list_to_map_1 stage_table (KInt id)); [done|].
    intros ([k name] & Hk & Hin)%list_elem_of_fmap. simpl in Hk. subst k.
    by apply (Hmiss name).
Qed.

Lemma get_stage_name_exact_or_fallback_witness :
  _get_stage_name (VInt 402001815651) = Ok "Closed Lost" ∧
  _get_stage_name (VInt 7) = Ok "Stage 7".
Proof.
  split.
  - apply (proj1 (get_stage_name_exact_or_fallback 402001815651)).
    unfold stage_table. do 1 apply list_elem_of_further. apply list_elem_of_here.
  - apply (proj1 (proj2 (get_stage_name_exact_or_fallback 7))).
    intros name Hin. unfold stage_table in Hin.
    repeat (apply elem_of_cons in Hin as [[=]|Hin]). by apply elem_of_nil in Hin.
Defined.


(** ** Enriching one deal *)

(** C2, as the code has it.  The enricher tests the truth value of
    [deal_stage_id], not its presence.  For a deal whose [owner_id] is
    usable: a truthy [deal_stage_id] that names a stage yields a
    [deal_stage] of that id and name; a [deal_stage_id] that is missing or
    falsy (null, false, zero, empty) leaves [deal_stage] as it was; a
    truthy one that cannot be hashed (a list, an object) raises
    [TypeError]. *)
Theorem deal_stage_set_when_truthy (m : gmap key value) (d : list (string * value)) :
  usable "owner_id" d →
  (∀ sid name,
     dict_lookup "deal_stage_id" d = Some sid → truthy sid = true →
     _get_stage_name sid = Ok name →
     ∃ d', enrich_deal m (VDict d) = Ok (VDict d') ∧
           dict_lookup "deal_stage" d' = Some (VDict [("id", sid); ("name", VStr name)])) ∧
  (truthy (default VNone (dict_lookup "deal_stage_id" d)) = false →
     ∃ d', enrich_deal m (VDict d) = Ok (VDict d') ∧
           dict_lookup "deal_stage" d' = dict_lookup "deal_stage" d) ∧
  (∀ sid,
     dict_lookup "deal_stage_id" d = Some sid → truthy sid = true →
     py_hash sid = Raise TypeError →
     enrich_deal m (VDict d) = Raise TypeError).
Proof.
  intros Ho. destruct (attach_owner_usable m d Ho) as (d1 & Hd1 & Hsame).
  split_and!.
  - intros sid name Hsid Ht Hname. unfold enrich_deal. rewrite Hd1. simpl.
    rewrite <- (Hsame "deal_stage_id") in Hsid by done.
    rewrite (attach_stage_truthy d1 sid name Hsid Ht Hname).
    eexists; split; [done|]. apply dict_lookup_set_eq.
  - intros Hf. unfold enrich_deal. rewrite Hd1. simpl.
    rewrite <- (Hsame "deal_stage_id") in Hf by done.
    rewrite (attach_stage_falsy d1 Hf).
    eexists; split; [done|]. by apply Hsame.
  - intros sid Hsid Ht Hk. unfold enrich_deal. rewrite Hd1. simpl.
    rewrite <- (Hsame "deal_stage_id") in Hsid by done.
    by apply (attach_stage_unhashable d1 sid).
Qed.

Lemma sample_deal_usable_owner : usable "owner_id" sample_deal.
Proof. intros v [= <-] _. by exists (KInt 5). Defined.

Lemma deal_stage_set_when_truthy_witness :
  usable "owner_id" sample_deal ∧
  ∃ d', enrich_deal ∅ (VDict sample_deal) = Ok (VDict d') ∧
        dict_lookup "deal_stage" d' =
          Some (VDict [("id", VInt 402001815652); ("name", VStr "Closed Won")]).
Proof.
  split; [exact sample_deal_usable_owner|].
  apply (proj1 (deal_stage_set_when_truthy ∅ sample_deal sample_deal_usable_owner)
           (VInt 402001815652) "Closed Won"); reflexivity.
Defined.

(** C2 as stated fails: a deal whose [deal_stage_id] is the number 0 has
    the field present and non-null, yet the enricher returns the deal as
    it came, with no [deal_stage]. *)
Lemma deal_stage_zero_left_unset :
  dict_lookup "deal_stage_id" zero_stage_deal = Some (VInt 0) ∧
  VInt 0 ≠ VNone ∧
  enrich_deal ∅ (VDict zero_stage_deal) = Ok (VDict zero_stage_deal) ∧
  dict_lookup "deal_stage" zero_stage_deal = None ∧
  _get_stage_name (VInt 0) = Ok "Stage 0".
Proof. by split_and!. Qed.

(** C3, as the code has it.  The enricher tests the truth value of
    [owner_id].  With the lookup built from [users] and a deal whose
    [deal_stage_id] is usable: a truthy [owner_id] equal to the id of some
    user attaches the last user of that id as [owner]; an [owner_id] that
    is missing, falsy, or the id of no user leaves [owner] as it was; a
    truthy one that cannot be hashed raises [TypeError]. *)
Theorem owner_set_when_truthy_and_known (users : list value) (m : gmap key value)
    (d : list (string * value)) :
  build_owner_map users ∅ = Ok m →
  usable "deal_stage_id" d →
  (∀ oid k user,
     dict_lookup "owner_id" d = Some oid → truthy oid = true →
     py_hash oid = Ok k → last_user k users = Some user →
     ∃ d', enrich_deal m (VDict d) = Ok (VDict d') ∧ dict_lookup "owner" d' = Some user) ∧
  (truthy (default VNone (dict_lookup "owner_id" d)) = false ∨
   (∃ k, py_hash (default VNone (dict_lookup "owner_id" d)) = Ok k ∧
         last_user k users = None) →
     ∃ d', enrich_deal m (VDict d) = Ok (VDict d') ∧
           dict_lookup "owner" d' = dict_lookup "owner" d) ∧
  (∀ oid,
     dict_lookup "owner_id" d = Some oid → truthy oid = true →
     py_hash oid = Raise TypeError →
     enrich_deal m (VDict d) = Raise TypeError).
Proof.
  intros Hm Hs.
  assert (∀ d1, (∀ f, f ≠ "owner" → dict_lookup f d1 = dict_lookup f d) →
            ∃ d', attach_stage (VDict d1) = Ok (VDict d') ∧
                  dict_lookup "owner" d' = dict_lookup "owner" d1) as Hstage.
  { intros d1 Hsame. destruct (attach_stage_usable d1) as (d' & Hd' & Hkeep).
    - eapply usable_ext; [|done]. by apply Hsame.
    - exists d'. split; [done|]. by apply Hkeep. }
  split_and!.
  - intros oid k user Hoid Ht Hk Hlast.
    assert (m !! k = Some user) as Hu.
    { by rewrite (build_owner_map_lookup _ _ _ k Hm), Hlast. }
    unfold enrich_deal. rewrite (attach_owner_found m d oid k user Hoid Ht Hk Hu). simpl.
    destruct (Hstage (dict_set "owner" user d)) as (d' & Hd' & Hown).
    { intros f Hf. by apply dict_lookup_set_ne. }
    exists d'. split; [done|]. by rewrite Hown, dict_lookup_set_eq.
  - intros Hskip. assert (attach_owner m (VDict d) = Ok (VDict d)) as Hd1.
    { destruct Hskip as [Hf|(k & Hk & Hlast)].
      - by apply attach_owner_falsy.
      - apply (attach_owner_unknown m d k Hk).
        by rewrite (build_owner_map_lookup _ _ _ k Hm), Hlast. }
    unfold enrich_deal. rewrite Hd1. simpl. by apply Hstage.
  - intros oid Hoid Ht Hk. unfold enrich_deal.
    by rewrite (attach_owner_unhashable m d oid Hoid Ht Hk).
Qed.

Lemma sample_deal_usable_stage : usable "deal_stage_id" sample_deal.
Proof. intros v [= <-] _. by exists (KInt 402001815652). Defined.

Lemma owner_set_when_truthy_and_known_witness :
  build_owner_map [user_a; user_b] ∅ = Ok {[ KInt 5 := user_b ]} ∧
  usable "deal_stage_id" sample_deal ∧
  ∃ d', enrich_deal {[ KInt 5 := user_b ]} (VDict sample_deal) = Ok (VDict d') ∧
        dict_lookup "owner" d' = Some user_b.
Proof.
  assert (build_owner_map [user_a; user_b] ∅ = Ok {[ KInt 5 := user_b ]}) as Hm.
  { simpl. by rewrite insert_insert_eq. }
  split_and!; [exact Hm|exact sample_deal_usable_stage|].
  apply (proj1 (owner_set_when_truthy_and_known [user_a; user_b] _ sample_deal
                  Hm sample_deal_usable_stage) (VInt 5) (KInt 5) user_b); reflexivity.
Defined.

(** C3 as stated fails: the deal's [owner_id] is 0, the users hold a user
    whose id is 0, and the response comes back unchanged: no [owner]. *)
Lemma owner_zero_left_unset :
  dict_lookup "owner_id" zero_owner_deal = Some (VInt 0) ∧
  last_user (KInt 0) [user_zero] = Some user_zero ∧
  enrich zero_owner_response = Ok zero_owner_response ∧
  dict_lookup "owner" zero_owner_deal = None.
Proof. split_and!; reflexivity. Qed.


(** ** Enriching a response *)

Lemma page_items_get key d l :
  page_items key d = Some l → py_get (VDict d) key (VList []) = Ok (VList l).
Proof.
  unfold page_items. simpl. by destruct (default _ _); intros [= ->].
Qed.

Lemma enrich_listed d users deals :
  page_items "users" d = Some users → page_items "deals" d = Some deals →
  enrich (VDict d) =
    (owner_map ← build_owner_map users ∅;
     enriched ← enrich_deals owner_map deals;
     Ok (VDict (dict_replace "deals" (VList enriched) d))).
Proof.
  intros Hu%page_items_get Hd%page_items_get. unfold enrich.
  rewrite Hu; simpl. by injection Hd as ->.
Qed.

(** C5, as the code has it.  The reads of ["users"], ["deals"],
    [owner_id] and [deal_stage_id] default on a missing key, so a response
    or a deal that lacks them is enriched without an exception as long as
    every user record carries an id; the id of a user is read by
    subscript, and the first user record without one raises [KeyError]. *)
Theorem missing_fields_default_except_user_id (d : list (string * value))
    (users deals : list value) :
  page_items "users" d = Some users →
  page_items "deals" d = Some deals →
  (∀ k dflt, dict_lookup k d = None → py_get (VDict d) k dflt = Ok dflt) ∧
  (Forall keyed_user users → Forall plain_deal deals →
     ∃ result, enrich (VDict d) = Ok result) ∧
  (∀ users0 user users1,
     users = users0 ++ VDict user :: users1 → Forall keyed_user users0 →
     dict_lookup "id" user = None →
     enrich (VDict d) = Raise (KeyError "id")).
Proof.
  intros Hu Hd. rewrite (enrich_listed d users deals Hu Hd). split_and!.
  - intros k dflt Hk. simpl. by rewrite Hk.
  - intros Husers Hdeals.
    destruct (build_owner_map_keyed users ∅ Husers) as [m ->]. simpl.
    destruct (enrich_deals_plain m deals Hdeals) as [deals' ->]. simpl. eauto.
  - intros users0 user users1 -> Hkeyed Hno.
    by rewrite (build_owner_map_no_id users0 user users1 ∅ Hkeyed Hno).
Qed.

Lemma missing_fields_default_except_user_id_witness :
  page_items "users" bare_response = Some [] ∧
  page_items "deals" bare_response = Some [VDict [("name", VStr "Deal")]] ∧
  ∃ result, enrich (VDict bare_response) = Ok result.
Proof.
  split_and!; [reflexivity..|].
  apply (proj1 (proj2 (missing_fields_default_except_user_id bare_response []
                         [VDict [("name", VStr "Deal")]] eq_refl eq_refl))).
  - apply Forall_nil_2.
  - apply Forall_cons_2; [|apply Forall_nil_2].
    exists [("name", VStr "Deal")]. split_and!; [done|intros v [=]..].
Defined.

(** C5 as stated fails: a users list with a record that has no id makes
    [get_all_deals] raise [KeyError], for the page and for the collector. *)
Lemma user_without_id_raises :
  enrich anonymous_user_response = Raise (KeyError "id") ∧
  get_all_deals_paginated sample_service (serve [anonymous_user_response]) 100 =
    Some ([page_request sample_service Deals 1], Raise (KeyError "id")).
Proof. split; reflexivity. Qed.

(** *** Idempotence *)

Lemma attach_owner_keeps m deal deal' :
  attach_owner m deal = Ok deal' →
  ∃ d d', deal = VDict d ∧ deal' = VDict d' ∧
          (∀ f, f ≠ "owner" → dict_lookup f d' = dict_lookup f d) ∧
          (∀ d2, (∀ f, f ≠ "deal_stage" → dict_lookup f d2 = dict_lookup f d') →
                 attach_owner m (VDict d2) = Ok (VDict d2)).
Proof.
  destruct deal as [| | | | |d]; try done. unfold attach_owner. simpl.
  destruct (truthy _) eqn:Ht.
  - destruct (py_hash _) as [k|] eqn:Hk; simpl; [|done].
    destruct (m !! k) as [user|] eqn:Hu; simpl.
    + intros [= <-]. exists d, (dict_set "owner" user d). split_and!; [done..| |].
      * intros f Hf. by apply dict_lookup_set_ne.
      * intros d2 Hd2. rewrite (Hd2 "owner_id"), dict_lookup_set_ne by done.
        rewrite Ht, Hk. simpl. rewrite Hu. simpl. do 2 f_equal.
        apply dict_set_id. by rewrite (Hd2 "owner"), dict_lookup_set_eq.
    + intros [= <-]. exists d, d. split_and!; [done..|].
      intros d2 Hd2. rewrite (Hd2 "owner_id") by done.
      rewrite Ht, Hk. simpl. by rewrite Hu.
  - intros [= <-]. exists d, d. split_and!; [done..|].
    intros d2 Hd2. rewrite (Hd2 "owner_id") by done. by rewrite Ht.
Qed.

Lemma attach_stage_keeps deal deal' :
  attach_stage deal = Ok deal' →
  ∃ d d', deal = VDict d ∧ deal' = VDict d' ∧
          (∀ f, f ≠ "deal_stage" → dict_lookup f d' = dict_lookup f d) ∧
          attach_stage (VDict d') = Ok (VDict d').
Proof.
  destruct deal as [| | | | |d]; try done. unfold attach_stage. simpl.
  destruct (truthy _) eqn:Ht.
  - destruct (_get_stage_name _) as [name|] eqn:Hn; simpl; [|done].
    intros [= <-]. eexists d, _. split_and!; [done..| |].
    + intros f Hf. by apply dict_lookup_set_ne.
    + rewrite dict_lookup_set_ne by done. rewrite Ht, Hn. simpl. do 2 f_equal.
      apply dict_set_id. by rewrite dict_lookup_set_eq.
  - intros [= <-]. exists d, d. split_and!; [done..|]. by rewrite Ht.
Qed.

Lemma enrich_deal_again m deal deal' :
  enrich_deal m deal = Ok deal' → enrich_deal m deal' = Ok deal'.
Proof.
  unfold enrich_deal. destruct (attach_owner m deal) as [deal1|] eqn:H1; simpl; [|done].
  intros H2.
  apply attach_owner_keeps in H1 as (d & d1 & -> & -> & _ & Hagain).
  apply attach_stage_keeps in H2 as (d1' & d' & [= <-] & -> & Hsame & Hstage).
  by rewrite (Hagain d' Hsame).
Qed.

Lemma enrich_deals_again m deals : ∀ deals',
  enrich_deals m deals = Ok deals' → enrich_deals m deals' = Ok deals'.
Proof.
  induction deals as [|deal deals IH]; intros deals'; simpl.
  - by intros [= <-].
  - destruct (enrich_deal m deal) as [deal'|] eqn:Hd; simpl; [|done].
    destruct (enrich_deals m deals) as [rest|] eqn:Hr; simpl; [|done].
    intros [= <-]. simpl.
    by rewrite (enrich_deal_again _ _ _ Hd), (IH _ eq_refl).
Qed.

Lemma enrich_again result result' :
  enrich result = Ok result' → enrich result' = Ok result'.
Proof.
  destruct result as [| | | | |d]; try done. unfold enrich. simpl.
  set (users := default (VList []) (dict_lookup "users" d)).
  set (deals := default (VList []) (dict_lookup "deals" d)).
  destruct (py_iter users) as [user_list|] eqn:Hul; simpl; [|done].
  destruct (build_owner_map user_list ∅) as [m|] eqn:Hm; simpl; [|done].
  destruct (py_iter deals) as [deal_list|] eqn:Hdl; simpl; [|done].
  destruct (enrich_deals m deal_list) as [enriched|] eqn:He; simpl; [|done].
  intros [= <-].
  assert (∀ o, deals = o → match o with VList _ => False | _ => True end →
               enrich (VDict d) = Ok (VDict d)) as Hsame.
  { intros o Ho Hnl. unfold enrich. simpl. fold users deals.
    rewrite Hul; simpl. rewrite Hm; simpl. rewrite Hdl; simpl. rewrite He; simpl.
    rewrite Ho. by destruct o. }
  destruct deals as [| | | |l|dd] eqn:Hdeals;
    try (by apply (Hsame _ eq_refl)).
  injection Hdl as ->. unfold enrich. simpl.
  rewrite (dict_lookup_replace_ne "deals" "users") by done. fold users. rewrite Hul; simpl.
  rewrite Hm; simpl.
  destruct (dict_lookup "deals" d) as [v|] eqn:Hv.
  - rewrite dict_lookup_replace_eq by (by rewrite Hv). simpl.
    rewrite (enrich_deals_again _ _ _ He). simpl.
    by rewrite dict_replace_replace.
  - rewrite dict_replace_absent by done. rewrite Hv. simpl.
    by rewrite dict_replace_absent.
Qed.

(** C10.  Enriching is idempotent: enriching the enriched deals again,
    with the same owner lookup, gives the same deals, and enriching the
    enriched response again (it carries the same users) gives the same
    response.  A first pass that raises has no second pass. *)
Theorem enrich_idempotent :
  (∀ m deals, enrich_deals m deals ≫= enrich_deals m = enrich_deals m deals) ∧
  (∀ users deals,
     (m ← build_owner_map users ∅; once ← enrich_deals m deals;
      m' ← build_owner_map users ∅; enrich_deals m' once) =
     (m ← build_owner_map users ∅; enrich_deals m deals)) ∧
  (∀ result, enrich result ≫= enrich = enrich result).
Proof.
  split_and!.
  - intros m deals. destruct (enrich_deals m deals) eqn:H; simpl; [|done].
    by apply (enrich_deals_again _ _ _ H).
  - intros users deals. destruct (build_owner_map users ∅) as [m|]; simpl; [|done].
    destruct (enrich_deals m deals) eqn:H; simpl; [|done].
    by apply (enrich_deals_again _ _ _ H).
  - intros result. destruct (enrich result) eqn:H; simpl; [|done].
    by apply (enrich_again _ _ H).
Qed.


(** ** The paging loop *)

Lemma fetch_page_run self http res page log :
  fetch_page self http res page log =
    (log ++ [page_request self res page], page_source self http res page).
Proof.
  destruct res; simpl; [done|].
  unfold get_all_deals, bindM, _make_request, lift. simpl.
  by destruct (respond http _).
Qed.

Lemma collect_unfold self http res max_pages :
  collect self http res max_pages =
    paginated (item_key res) (fetch_page self http res) max_pages
      (enough max_pages) 1 [] [].
Proof. by destruct res. Qed.

Lemma page_request_inj self res page page' :
  page_request self res page = page_request self res page' → page = page'.
Proof. destruct res; by intros [= ->]. Qed.

Lemma seqZ_succ page (n : nat) :
  seqZ page (Z.of_nat (S n)) = page :: seqZ (page + 1) (Z.of_nat n).
Proof. rewrite seqZ_cons by lia. do 2 f_equal; lia. Qed.

Lemma page_turn_items key page all d l :
  page_items key d = Some l →
  page_turn key page all (VDict d) =
    match l with
    | [] => Ok (Break all)
    | _ => more ← more_pages page (VDict d);
           Ok (if more : bool then Next (all ++ l) else Break (all ++ l))
    end.
Proof.
  intros Hitems%page_items_get. unfold page_turn. rewrite Hitems. simpl.
  destruct l as [|x l]; [done|]. simpl.
  unfold more_pages, total_pages_of. simpl.
  destruct (py_get _ "total_pages" _) as [tp|]; simpl; [|done].
  by destruct (py_ge page tp) as [[]|].
Qed.

Lemma goes_on_turn key page all d :
  goes_on key page d →
  page_turn key page all (VDict d) = Ok (Next (all ++ items_of key d)).
Proof.
  intros [(l & Hl & Hne) Hmore]. rewrite (page_turn_items _ _ _ _ l Hl).
  unfold items_of. rewrite Hl, Hmore. by destruct l.
Qed.

(** A page that announces [total_pages] at or below its own number never
    sends the loop to a next page. *)
Lemma page_turn_stops key page all result total_pages all' :
  total_pages_of result = Ok total_pages → py_ge page total_pages = Ok true →
  page_turn key page all result ≠ Ok (Next all').
Proof.
  unfold total_pages_of, page_turn. intros Htp Hge.
  destruct (py_get result key _) as [items|]; simpl; [|done].
  destruct (truthy items); simpl; [|done].
  destruct (list_extend all items); simpl; [|done].
  destruct (py_get result "meta" _) as [meta|]; simpl in *; [|done].
  rewrite Htp. simpl. by rewrite Hge.
Qed.

Section loop.
Context (key : string) (fetch : Z → M value) (max_pages : Z).
Context (rq : Z → request) (source : Z → result value).
Context (Hfetch : ∀ page log, fetch page log = (log ++ [rq page], source page)).

Lemma paginated_step fuel page all log :
  paginated key fetch max_pages (S fuel) page all log =
    if bool_decide (page ≤ max_pages) then
      match source page ≫= page_turn key page all with
      | Raise e => Some (log ++ [rq page], Raise e)
      | Ok (Break all') => Some (log ++ [rq page], Ok all')
      | Ok (Next all') =>
          paginated key fetch max_pages fuel (page + 1) all' (log ++ [rq page])
      end
    else Some (log, Ok all).
Proof. simpl. rewrite Hfetch. by destruct (source page). Qed.

Lemma paginated_walk fuel : ∀ page all log end_state,
  paginated key fetch max_pages fuel page all log = Some end_state →
  walk key max_pages rq source page all log end_state.
Proof.
  induction fuel as [|fuel IH]; intros page all log end_state; [done|].
  rewrite paginated_step. case_bool_decide as Hle.
  - destruct (source page ≫= page_turn key page all) as [[all'|all']|e] eqn:Hturn.
    + intros [= <-]. by apply walk_break.
    + intros H. eapply walk_next; eauto.
    + intros [= <-]. by apply walk_raise.
  - intros [= <-]. apply walk_done. lia.
Qed.

(** The loop returns: [max_pages + 1] guard evaluations are enough. *)
Lemma paginated_terminates fuel : ∀ page all log,
  (Z.to_nat (max_pages - page + 1) < fuel)%nat →
  is_Some (paginated key fetch max_pages fuel page all log).
Proof.
  induction fuel as [|fuel IH]; intros page all log Hfuel; [lia|].
  rewrite paginated_step. case_bool_decide as Hle; [|done].
  destruct (source page ≫= page_turn key page all) as [[all'|all']|e];
    [done| |done].
  apply IH. lia.
Qed.

(** What a finished walk has sent: the requests for [n] consecutive
    pages, of which all but the last sent the loop on, and a page whose
    fetch raised is the last and decides the outcome. *)
Lemma walk_trace page all log end_state :
  walk key max_pages rq source page all log end_state →
  ∃ n : nat,
    end_state.1 = log ++ (rq <$> seqZ page (Z.of_nat n)) ∧
    (∀ i : nat, (S i < n)%nat →
       ∃ a a', source (page + Z.of_nat i)
                 ≫= page_turn key (page + Z.of_nat i) a = Ok (Next a')) ∧
    (∀ (i : nat) e, (i < n)%nat → source (page + Z.of_nat i) = Raise e →
       end_state.2 = Raise e ∧ S i = n).
Proof.
  induction 1 as [page all log Hgt|page all log e Hle Hturn
                 |page all log all' Hle Hturn
                 |page all log all' end_state Hle Hturn _ (n & Hlog & Hon & Hfail)].
  - exists 0%nat. split_and!; [by rewrite app_nil_r|lia..].
  - exists 1%nat. split_and!; [done|lia|].
    intros i e' Hi He'. assert (i = 0%nat) as -> by lia.
    rewrite Z.add_0_r in He'. rewrite He' in Hturn. by injection Hturn as ->.
  - exists 1%nat. split_and!; [done|lia|].
    intros i e' Hi He'. assert (i = 0%nat) as -> by lia.
    rewrite Z.add_0_r in He'. by rewrite He' in Hturn.
  - exists (S n). split_and!.
    + by rewrite Hlog, seqZ_succ, fmap_cons, <- app_assoc.
    + intros [|i] Hi.
      * rewrite Z.add_0_r. eauto.
      * destruct (Hon i) as (a & a' & Ha); [lia|]. exists a, a'.
        by replace (page + Z.of_nat (S i)) with (page + 1 + Z.of_nat i) by lia.
    + intros [|i] e Hi He.
      * rewrite Z.add_0_r in He. by rewrite He in Hturn.
      * replace (page + Z.of_nat (S i)) with (page + 1 + Z.of_nat i) in He by lia.
        destruct (Hfail i e) as [-> ?]; [lia|done|]. split; [done|lia].
Qed.

(** Pages that go on are fetched one after the other. *)
Lemma paginated_go_on pages : ∀ fuel page all log,
  (∀ (i : nat) d, pages !! i = Some d →
     source (page + Z.of_nat i) = Ok (VDict d) ∧ goes_on key (page + Z.of_nat i) d) →
  page + Z.of_nat (length pages) - 1 ≤ max_pages →
  paginated key fetch max_pages (length pages + fuel) page all log =
  paginated key fetch max_pages fuel (page + Z.of_nat (length pages))
    (all ++ concat (items_of key <$> pages))
    (log ++ (rq <$> seqZ page (Z.of_nat (length pages)))).
Proof.
  induction pages as [|d pages IH]; intros fuel page all log Hpages Hmax.
  - simpl. by rewrite Z.add_0_r, !app_nil_r.
  - cbn [length Nat.add]. rewrite paginated_step.
    rewrite bool_decide_true by (cbn [length] in Hmax; lia).
    destruct (Hpages 0%nat d eq_refl) as [Hsrc Hon]. rewrite Z.add_0_r in Hsrc, Hon.
    rewrite Hsrc. simpl. rewrite (goes_on_turn _ _ _ _ Hon).
    rewrite IH.
    + f_equal; [cbn [length]; lia| |].
      * by rewrite <- app_assoc.
      * by rewrite seqZ_succ, fmap_cons, <- app_assoc.
    + intros i d' Hi.
      replace (page + 1 + Z.of_nat i) with (page + Z.of_nat (S i)) by lia.
      by apply Hpages.
    + cbn [length] in Hmax. lia.
Qed.

(** The page the walk ends at. *)
Lemma paginated_last fuel page all log d l :
  page ≤ max_pages → source page = Ok (VDict d) → page_items key d = Some l →
  (l = [] ∨ more_pages page (VDict d) = Ok false ∨
   (more_pages page (VDict d) = Ok true ∧ page = max_pages)) →
  paginated key fetch max_pages (S (S fuel)) page all log =
    Some (log ++ [rq page], Ok (all ++ l)).
Proof.
  intros Hle Hsrc Hl Hend. rewrite paginated_step, bool_decide_true by done.
  rewrite Hsrc. cbn [mbind result_bind]. rewrite (page_turn_items _ _ _ _ l Hl).
  destruct l as [|x l]; [by rewrite app_nil_r|].
  destruct Hend as [?|[->|[-> ->]]]; [done..|]. cbn [mbind result_bind].
  rewrite paginated_step. by rewrite bool_decide_false by lia.
Qed.

Lemma paginated_last_raise fuel page all log d e :
  page ≤ max_pages → source page = Ok (VDict d) →
  page_turn key page all (VDict d) = Raise e →
  paginated key fetch max_pages (S fuel) page all log =
    Some (log ++ [rq page], Raise e).
Proof.
  intros Hle Hsrc Hturn. rewrite paginated_step, bool_decide_true by done.
  rewrite Hsrc. simpl. by rewrite Hturn.
Qed.

Lemma fetched_go_on pages last :
  fetched source (pages ++ [last]) → all_go_on key pages →
  (∀ (i : nat) d, pages !! i = Some d →
     source (1 + Z.of_nat i) = Ok (VDict d) ∧ goes_on key (1 + Z.of_nat i) d) ∧
  source (1 + Z.of_nat (length pages)) = Ok (VDict last).
Proof.
  intros Hf Hon. split.
  - intros i d Hi. rewrite (Z.add_comm 1). split; [|by apply Hon].
    apply Hf. by apply lookup_app_l_Some.
  - rewrite (Z.add_comm 1). apply Hf.
    by rewrite lookup_app_r, Nat.sub_diag.
Qed.

(** The walk in full: pages that go on, then the page it ends at. *)
Lemma paginated_pages pages last l :
  fetched source (pages ++ [last]) → all_go_on key pages →
  page_items key last = Some l →
  Z.of_nat (length pages) < max_pages →
  ends_walk max_pages (length pages) last l →
  paginated key fetch max_pages (enough max_pages) 1 [] [] =
    Some (rq <$> seqZ 1 (Z.of_nat (S (length pages))),
          Ok (concat (items_of key <$> pages ++ [last]))).
Proof.
  intros Hf Hon Hl Hmax Hend.
  destruct (fetched_go_on pages last Hf Hon) as [Hpages Hlast].
  replace (enough max_pages)
    with (length pages + S (S (Z.to_nat max_pages - length pages - 1)))%nat
    by (unfold enough; lia).
  rewrite (paginated_go_on pages _ 1 [] [] Hpages) by lia.
  rewrite (paginated_last _ _ _ _ last l); [|lia|done..|].
  - f_equal. f_equal.
    + by rewrite seqZ_S, fmap_app.
    + assert (items_of key last = l) as <- by (unfold items_of; by rewrite Hl).
      rewrite fmap_app, concat_app. simpl. by rewrite app_nil_r.
  - unfold ends_walk in Hend. rewrite (Z.add_comm 1).
    destruct Hend as [?|[?|[? ?]]]; eauto.
Qed.

Lemma paginated_pages_raise pages last e :
  fetched source (pages ++ [last]) → all_go_on key pages →
  Z.of_nat (length pages) < max_pages →
  (∀ all, page_turn key (Z.of_nat (length pages) + 1) all (VDict last) = Raise e) →
  paginated key fetch max_pages (enough max_pages) 1 [] [] =
    Some (rq <$> seqZ 1 (Z.of_nat (S (length pages))), Raise e).
Proof.
  intros Hf Hon Hmax Hturn.
  destruct (fetched_go_on pages last Hf Hon) as [Hpages Hlast].
  replace (enough max_pages)
    with (length pages + S (Z.to_nat max_pages - length pages))%nat
    by (unfold enough; lia).
  rewrite (paginated_go_on pages _ 1 [] [] Hpages) by lia.
  rewrite (paginated_last_raise _ _ _ _ last e); [|lia|done|].
  - by rewrite seqZ_S, fmap_app.
  - rewrite (Z.add_comm 1). apply Hturn.
Qed.

(** Pages that go on up to page [max_pages]: the guard ends the loop. *)
Lemma paginated_cut pages :
  fetched source pages → all_go_on key pages →
  Z.of_nat (length pages) = max_pages →
  paginated key fetch max_pages (enough max_pages) 1 [] [] =
    Some (rq <$> seqZ 1 (Z.of_nat (length pages)),
          Ok (concat (items_of key <$> pages))).
Proof.
  intros Hf Hon Hmax.
  replace (enough max_pages) with (length pages + 1)%nat by (unfold enough; lia).
  rewrite (paginated_go_on pages _ 1 [] []); [|..|lia].
  - rewrite paginated_step. by rewrite bool_decide_false by lia.
  - intros i d Hi. rewrite (Z.add_comm 1). split; [by apply Hf|by apply Hon].
Qed.
End loop.


(** ** The collectors *)

Lemma collect_returns self http res max_pages :
  ∃ end_state,
    collect self http res max_pages = Some end_state ∧
    walk (item_key res) max_pages (page_request self res) (page_source self http res)
      1 [] [] end_state.
Proof.
  rewrite collect_unfold.
  destruct (paginated_terminates (item_key res) (fetch_page self http res) max_pages
              (page_request self res) (page_source self http res)
              (fetch_page_run self http res) (enough max_pages) 1 [] [])
    as [end_state Hend]; [unfold enough; lia|].
  exists end_state. split; [done|].
  by eapply paginated_walk; [apply fetch_page_run|].
Qed.

(** C1.  When the pages fetched before the last each hold items and ask
    for a further page, and the walk ends at the last (it is empty, or
    its metadata asks for no more, or it is page [max_pages]), the
    collector of contacts and the collector of deals request pages
    [1 .. n] in turn and return the items of those pages concatenated in
    that order, each page's own order kept and nothing removed. *)
Theorem collect_concatenates_pages self http res max_pages pages last l :
  fetched (page_source self http res) (pages ++ [last]) →
  all_go_on (item_key res) pages →
  page_items (item_key res) last = Some l →
  Z.of_nat (length pages) < max_pages →
  ends_walk max_pages (length pages) last l →
  collect self http res max_pages =
    Some (requests self res (S (length pages)),
          Ok (concat (items_of (item_key res) <$> pages ++ [last]))).
Proof.
  intros Hf Hon Hl Hmax Hend. rewrite collect_unfold.
  by apply (paginated_pages _ _ _ _ _ (fetch_page_run self http res) pages last l).
Qed.

Lemma three_pages_fetched :
  fetched (page_source sample_service (serve (VDict <$> three_pages)) Contacts)
    three_pages.
Proof. intros [|[|[|i]]] d; intros [= <-]; reflexivity. Defined.

Lemma two_pages_go_on : all_go_on "contacts" (take 2 three_pages).
Proof.
  intros [|[|i]] d; intros [= <-]; (split; [eexists; split; [reflexivity|done]|reflexivity]).
Defined.

Lemma collect_concatenates_pages_witness :
  collect sample_service (serve (VDict <$> three_pages)) Contacts 100 =
    Some (requests sample_service Contacts 3,
          Ok [item 1; item 2; item 2; item 3; item 4; item 5]).
Proof.
  apply (collect_concatenates_pages sample_service (serve (VDict <$> three_pages))
           Contacts 100 (take 2 three_pages)
           (page_of "contacts" [item 4; item 5] [("total_pages", VInt 3)])
           [item 4; item 5]).
  - exact three_pages_fetched.
  - exact two_pages_go_on.
  - reflexivity.
  - simpl. lia.
  - right; left. reflexivity.
Defined.

(** C7.  A page whose metadata reports a [total_pages] of zero or less
    ends the collection: when the walk reaches it, the collector returns,
    without an exception, the items of the pages up to and including that
    page, having requested exactly those pages; and however the walk
    went, no page after it is requested.  And when every page up to
    [max_pages] holds items and asks for more, the collector stops there
    without an exception and returns the items of those pages. *)
Theorem collect_stops_at_nonpositive_total_and_at_max_pages self http res max_pages :
  (∀ pages last l total_pages,
     fetched (page_source self http res) (pages ++ [last]) →
     all_go_on (item_key res) pages →
     page_items (item_key res) last = Some l →
     Z.of_nat (length pages) < max_pages →
     total_pages_of (VDict last) = Ok (VInt total_pages) → total_pages ≤ 0 →
     collect self http res max_pages =
       Some (requests self res (S (length pages)),
             Ok (concat (items_of (item_key res) <$> pages ++ [last])))) ∧
  (∀ page d total_pages,
     1 ≤ page → page_source self http res page = Ok (VDict d) →
     total_pages_of (VDict d) = Ok (VInt total_pages) → total_pages ≤ 0 →
     ∃ (n : nat) outcome,
       collect self http res max_pages = Some (requests self res n, outcome) ∧
       Z.of_nat n ≤ page) ∧
  (∀ pages,
     fetched (page_source self http res) pages →
     all_go_on (item_key res) pages →
     Z.of_nat (length pages) = max_pages →
     collect self http res max_pages =
       Some (requests self res (length pages),
             Ok (concat (items_of (item_key res) <$> pages)))).
Proof.
  split_and!.
  - intros pages last l total_pages Hf Hon Hl Hmax Htotal Hle. rewrite collect_unfold.
    apply (paginated_pages _ _ _ _ _ (fetch_page_run self http res) pages last l);
      [done..|].
    right; left. unfold more_pages. rewrite Htotal. simpl.
    by rewrite bool_decide_true by lia.
  - intros page d total_pages Hpage Hsrc Htotal Hle.
    destruct (collect_returns self http res max_pages) as ([log outcome] & -> & Hwalk).
    apply walk_trace in Hwalk as (n & Hlog & Hon & _). simpl in Hlog.
    exists n, outcome. split; [by rewrite Hlog|].
    destruct (decide (Z.of_nat n ≤ page)) as [|Hgt]; [done|exfalso].
    destruct (Hon (Z.to_nat (page - 1))) as (a & a' & Hturn); [lia|].
    replace (1 + Z.of_nat (Z.to_nat (page - 1))) with page in Hturn by lia.
    rewrite Hsrc in Hturn. simpl in Hturn.
    apply (page_turn_stops _ _ _ _ _ _ Htotal) in Hturn; [done|].
    simpl. by rewrite bool_decide_true by lia.
  - intros pages Hf Hon Hmax. rewrite collect_unfold.
    by apply (paginated_cut _ _ _ _ _ (fetch_page_run self http res) pages).
Qed.

Lemma collect_stops_at_nonpositive_total_and_at_max_pages_witness :
  collect sample_service (serve [VDict zero_total_page; VDict no_meta_page])
    Contacts 100 = Some (requests sample_service Contacts 1, Ok [item 1]) ∧
  (∃ (n : nat) outcome,
     collect sample_service (serve [VDict zero_total_page; VDict no_meta_page])
       Contacts 100 = Some (requests sample_service Contacts n, outcome) ∧
     Z.of_nat n ≤ 1) ∧
  collect sample_service (serve (VDict <$> three_pages)) Contacts 2 =
    Some (requests sample_service Contacts 2, Ok [item 1; item 2; item 2; item 3]).
Proof.
  split_and!.
  - apply (proj1 (collect_stops_at_nonpositive_total_and_at_max_pages sample_service
                    (serve [VDict zero_total_page; VDict no_meta_page]) Contacts 100)
             [] zero_total_page [item 1] 0).
    + by intros [|i] d; intros [= <-].
    + by intros i d.
    + reflexivity.
    + simpl. lia.
    + reflexivity.
    + lia.
  - apply (proj1 (proj2 (collect_stops_at_nonpositive_total_and_at_max_pages
                    sample_service
                    (serve [VDict zero_total_page; VDict no_meta_page]) Contacts 100))
             1 zero_total_page 0); [lia|reflexivity|reflexivity|lia].
  - apply (proj2 (proj2 (collect_stops_at_nonpositive_total_and_at_max_pages
                    sample_service (serve (VDict <$> three_pages)) Contacts 2))
             (take 2 three_pages)).
    + intros i d Hi. apply three_pages_fetched.
      by apply (lookup_take_Some three_pages 2 i d) in Hi as [? _].
    + exact two_pages_go_on.
    + reflexivity.
Defined.

(** C8.  When the first page holds no items, whatever its metadata says,
    both collectors return the empty list; no request other than the one
    for page 1 is sent, so page 2 is never fetched. *)
Theorem empty_first_page_ends_collection self http res max_pages d :
  page_source self http res 1 = Ok (VDict d) →
  page_items (item_key res) d = Some [] →
  ∃ log,
    collect self http res max_pages = Some (log, Ok []) ∧
    (∀ rq, rq ∈ log → rq = page_request self res 1) ∧
    page_request self res 2 ∉ log.
Proof.
  intros Hsrc Hempty.
  assert (∀ log : list request,
            (∀ rq, rq ∈ log → rq = page_request self res 1) →
            page_request self res 2 ∉ log) as Hno2.
  { intros log Hlog Hin. by apply Hlog, page_request_inj in Hin. }
  destruct (decide (1 ≤ max_pages)) as [Hmax|Hmax].
  - exists [page_request self res 1].
    assert (∀ rq, rq ∈ [page_request self res 1] → rq = page_request self res 1)
      as Hlog by (by intros rq ->%list_elem_of_singleton).
    split_and!; [|done|by apply Hno2].
    rewrite collect_unfold.
    rewrite (paginated_pages _ _ _ _ _ (fetch_page_run self http res) [] d []).
    + unfold items_of. simpl. by rewrite Hempty.
    + by intros [|i] d'; intros [= <-].
    + by intros i d'.
    + done.
    + simpl. lia.
    + by left.
  - exists []. split_and!.
    + rewrite collect_unfold. unfold enough.
      rewrite (paginated_step _ _ _ _ _ (fetch_page_run self http res)).
      by rewrite bool_decide_false by lia.
    + by intros rq ?%elem_of_nil.
    + by intros ?%elem_of_nil.
Qed.

Lemma empty_first_page_ends_collection_witness :
  ∃ log,
    collect sample_service (serve [VDict empty_first_page; VDict no_meta_page])
      Contacts 100 = Some (log, Ok []) ∧
    (∀ rq, rq ∈ log → rq = page_request sample_service Contacts 1) ∧
    page_request sample_service Contacts 2 ∉ log.
Proof.
  apply (empty_first_page_ends_collection sample_service
           (serve [VDict empty_first_page; VDict no_meta_page]) Contacts 100
           empty_first_page); reflexivity.
Defined.


(** C9.  A failure of the fetch reaches the caller as it was raised.  The
    transport's exception and the status error of a response outside 2xx
    are what [_make_request] raises; and whenever a request the collector
    sent was answered by an exception, the collector raises that same
    exception, returns no items, and that request is the last one sent
    and was sent once. *)
Theorem fetch_failure_propagates self http res max_pages :
  (∀ rq e, http rq = Raise e → respond http rq = Raise e) ∧
  (∀ rq r, http rq = Ok r → ¬ (200 ≤ status_code r < 300) →
     respond http rq = Raise (HTTPStatusError (status_code r))) ∧
  ∃ log outcome,
    collect self http res max_pages = Some (log, outcome) ∧
    ∀ rq e, rq ∈ log → respond http rq = Raise e →
      outcome = Raise e ∧ ∃ before, log = before ++ [rq] ∧ rq ∉ before.
Proof.
  split_and!.
  - intros rq e H. unfold respond. by rewrite H.
  - intros rq r H Hstatus. unfold respond, raise_for_status. rewrite H. simpl.
    by rewrite bool_decide_false.
  - destruct (collect_returns self http res max_pages) as ([log outcome] & -> & Hwalk).
    apply walk_trace in Hwalk as (n & Hlog & _ & Hfail). simpl in Hlog, Hfail.
    exists log, outcome. split; [done|]. intros rq e Hin Hrq.
    rewrite Hlog in Hin.
    apply list_elem_of_fmap in Hin as (page & -> & Hpage).
    apply elem_of_seqZ in Hpage.
    assert (page_source self http res page = Raise e) as Hsrc.
    { destruct res; [exact Hrq|]. unfold page_source. by rewrite Hrq. }
    destruct (Hfail (Z.to_nat (page - 1)) e) as [-> Hn]; [lia| |].
    { by replace (1 + Z.of_nat (Z.to_nat (page - 1))) with page by lia. }
    split; [done|]. exists (requests self res (Z.to_nat (page - 1))).
    split.
    + rewrite Hlog, <- Hn, seqZ_S, fmap_app. unfold requests. simpl.
      by replace (1 + Z.of_nat (Z.to_nat (page - 1))) with page by lia.
    + unfold requests. intros (page' & Heq & Hpage')%list_elem_of_fmap.
      apply page_request_inj in Heq as <-. apply elem_of_seqZ in Hpage'. lia.
Qed.

Lemma fetch_failure_propagates_witness :
  ∃ log outcome,
    collect sample_service
      (failing_at 2 (TransportError "timed out") (serve (VDict <$> three_pages)))
      Contacts 100 = Some (log, outcome) ∧
    outcome = Raise (TransportError "timed out") ∧
    ∃ before, log = before ++ [page_request sample_service Contacts 2] ∧
              page_request sample_service Contacts 2 ∉ before.
Proof.
  destruct (proj2 (proj2 (fetch_failure_propagates sample_service
              (failing_at 2 (TransportError "timed out") (serve (VDict <$> three_pages)))
              Contacts 100))) as (log & outcome & Hrun & Hfail).
  exists log, outcome. split; [exact Hrun|].
  apply Hfail; [|reflexivity].
  injection Hrun as <- _. apply list_elem_of_further, list_elem_of_here.
Defined.

(** C4, as the code has it.  A last page whose metadata lacks
    [total_pages] (no ["meta"], or a ["meta"] object without the field) is
    read as announcing one page: the collector stops after it without an
    exception and returns what it collected.  A [total_pages] that is
    present but no number is not replaced by the default: on a page with
    items the comparison raises [TypeError] and the collection ends in
    that exception. *)
Theorem missing_total_pages_defaults_to_one self http res max_pages pages last l :
  fetched (page_source self http res) (pages ++ [last]) →
  all_go_on (item_key res) pages →
  page_items (item_key res) last = Some l →
  Z.of_nat (length pages) < max_pages →
  (lacks_total_pages last →
     total_pages_of (VDict last) = Ok (VInt 1) ∧
     collect self http res max_pages =
       Some (requests self res (S (length pages)),
             Ok (concat (items_of (item_key res) <$> pages ++ [last])))) ∧
  (∀ meta total_pages,
     l ≠ [] → dict_lookup "meta" last = Some (VDict meta) →
     dict_lookup "total_pages" meta = Some total_pages → non_numeric total_pages →
     collect self http res max_pages =
       Some (requests self res (S (length pages)), Raise TypeError)).
Proof.
  intros Hf Hon Hl Hmax. split.
  - intros Hlacks.
    assert (total_pages_of (VDict last) = Ok (VInt 1)) as Htotal.
    { unfold total_pages_of. simpl.
      destruct Hlacks as [->|(meta & -> & Hnone)]; simpl; [done|]. by rewrite Hnone. }
    split; [done|]. rewrite collect_unfold.
    apply (paginated_pages _ _ _ _ _ (fetch_page_run self http res) pages last l);
      [done..|].
    right; left. unfold more_pages. rewrite Htotal. simpl.
    by rewrite bool_decide_true by lia.
  - intros meta total_pages Hne Hmeta Htotal Hnon. rewrite collect_unfold.
    apply (paginated_pages_raise _ _ _ _ _ (fetch_page_run self http res) pages last);
      [done..|].
    intros all. rewrite (page_turn_items _ _ _ _ l Hl).
    destruct l as [|x l]; [done|].
    unfold more_pages, total_pages_of. simpl. rewrite Hmeta. simpl. rewrite Htotal.
    simpl. by destruct total_pages.
Qed.

Lemma missing_total_pages_defaults_to_one_witness :
  total_pages_of (VDict no_meta_page) = Ok (VInt 1) ∧
  collect sample_service (serve [VDict no_meta_page; VDict no_meta_page]) Contacts 100 =
    Some (requests sample_service Contacts 1, Ok [item 1]).
Proof.
  apply (proj1 (missing_total_pages_defaults_to_one sample_service
                  (serve [VDict no_meta_page; VDict no_meta_page]) Contacts 100
                  [] no_meta_page [item 1]
                  ltac:(by intros [|i] d; intros [= <-])
                  ltac:(by intros i d)
                  eq_refl ltac:(simpl; lia))).
  by left.
Defined.

(** C4 as stated fails: a first page that holds a contact and reports
    [total_pages] as the text "3" makes the collector raise [TypeError]
    instead of stopping with the contact. *)
Lemma text_total_pages_raises :
  dict_lookup "meta" text_total_page = Some (VDict [("total_pages", VStr "3")]) ∧
  collect sample_service (serve [VDict text_total_page]) Contacts 100 =
    Some ([page_request sample_service Contacts 1], Raise TypeError).
Proof. split; reflexivity. Qed.

Lemma enrich_idempotent_witness :
  enrich sample_response ≫= enrich = enrich sample_response.
Proof. apply (proj2 (proj2 enrich_idempotent)). Defined.

(** * Further properties of the service *)

(** ** Construction *)

(** X1.  [__init__] succeeds exactly when the environment holds a domain
    and an API key that are both non-empty, and then keeps them; a view id
    is replaced by its default only when its variable is unset.  In every
    other environment it raises [ValueError]. *)
Theorem init_needs_domain_and_key (getenv : string → option string) :
  (∀ dom api, configured getenv dom api →
     ∃ svc, __init__ getenv = Ok svc ∧
            domain svc = dom ∧ api_key svc = api ∧
            contacts_view_id svc = default "402014829835" (getenv "CONTACTS_VIEW_ID") ∧
            deals_view_id svc = default "402014829847" (getenv "DEALS_VIEW_ID")) ∧
  ((∀ dom api, ¬ configured getenv dom api) →
     ∃ msg, __init__ getenv = Raise (ValueError msg)).
Proof.
  split.
  - intros dom api (Hdom & Hne & Hapi & Hne'). unfold __init__.
    rewrite Hdom, Hapi.
    apply String.eqb_neq in Hne as ->. apply String.eqb_neq in Hne' as ->.
    simpl. eauto 10.
  - intros Hnot. unfold __init__.
    destruct (getenv "FRESHWORKS_DOMAIN") as [dom|] eqn:Hdom; [|eauto].
    destruct (getenv "FRESHWORKS_API_KEY") as [api|] eqn:Hapi; [|eauto].
    destruct (String.eqb dom EmptyString) eqn:Ed; simpl; [eauto|].
    destruct (String.eqb api EmptyString) eqn:Ea; simpl; [eauto|].
    apply String.eqb_neq in Ed, Ea. by destruct (Hnot dom api).
Qed.

Lemma init_needs_domain_and_key_witness :
  (∃ svc, __init__ sample_env = Ok svc ∧
          domain svc = "acme" ∧ api_key svc = "k3y" ∧
          contacts_view_id svc = "402014829835" ∧ deals_view_id svc = "77") ∧
  ∃ msg, __init__ keyless_env = Raise (ValueError msg).
Proof.
  split.
  - apply (proj1 (init_needs_domain_and_key sample_env) "acme" "k3y").
    by split_and!.
  - apply (proj2 (init_needs_domain_and_key keyless_env)).
    intros dom api (_ & _ & Hapi & Hne). injection Hapi as <-. by apply Hne.
Defined.

(** ** Single calls *)

(** X3.  The two listing calls.  [get_all_contacts] does nothing with its
    [include] argument; for both calls a [view_id] of zero selects the
    configured view, like no [view_id] at all.  Each call sends exactly
    one request, to the chosen view: the one for contacts carries no
    [include] parameter, the one for deals carries the [include] given
    and [sort = amount], also when enriching the answer raises. *)
Theorem listing_calls_choose_view (self : FreshworksService) (http : client)
    (page per_page : Z) (view_id : option Z) (include : string) :
  (∀ include', get_all_contacts self http page per_page view_id include =
               get_all_contacts self http page per_page view_id include') ∧
  get_all_contacts self http page per_page (Some 0) include =
    get_all_contacts self http page per_page None include ∧
  get_all_deals self http page per_page (Some 0) include =
    get_all_deals self http page per_page None include ∧
  (∀ log, ∃ rq,
     (get_all_contacts self http page per_page view_id include log).1 = log ++ [rq] ∧
     url rq = base_url self +:+ "/" +:+ "contacts/view/"
                +:+ chosen_view (contacts_view_id self) view_id ∧
     dict_lookup "page" (params rq) = Some (VInt page) ∧
     dict_lookup "per_page" (params rq) = Some (VInt per_page) ∧
     dict_lookup "include" (params rq) = None) ∧
  (∀ log, ∃ rq,
     (get_all_deals self http page per_page view_id include log).1 = log ++ [rq] ∧
     url rq = base_url self +:+ "/" +:+ "deals/view/"
                +:+ chosen_view (deals_view_id self) view_id ∧
     dict_lookup "page" (params rq) = Some (VInt page) ∧
     dict_lookup "per_page" (params rq) = Some (VInt per_page) ∧
     dict_lookup "sort" (params rq) = Some (VStr "amount") ∧
     dict_lookup "include" (params rq) = Some (VStr include)).
Proof.
  assert (∀ configured_view,
            match view_given view_id with
            | Some v => pretty v
            | None => configured_view
            end = chosen_view configured_view view_id) as Hview.
  { intros cv. unfold view_given, chosen_view. destruct view_id as [v|]; [|done].
    case_bool_decide as Hv.
    - by rewrite Hv.
    - by apply Z.eqb_neq in Hv as ->. }
  split_and!; [done..| |].
  - intros log. eexists. split; [done|]. simpl. split_and!; [|done..].
    rewrite <- Hview. by destruct (view_given view_id).
  - intros log. unfold get_all_deals, bindM, _make_request. simpl.
    eexists. split.
    + by destruct (respond http _).
    + simpl. split_and!; [|done..].
      rewrite <- Hview. by destruct (view_given view_id).
Qed.

(** X4.  The two calls for a single record send one request each, with
    the [include] given as its only parameter, and hand back what the
    server answered, untouched: no owner or stage is attached to a deal
    fetched by id.  The address names the record: calls for two different
    ids go to different addresses, and a contact is never asked for at
    the address of a deal. *)
Theorem record_calls_pass_through (self : FreshworksService) (http : client)
    (id : Z) (include : string) (log : list request) :
  (∃ rq, get_contact_by_id self http id include log = (log ++ [rq], respond http rq) ∧
         params rq = [("include", VStr include)]) ∧
  (∃ rq, get_deal_by_id self http id include log = (log ++ [rq], respond http rq) ∧
         params rq = [("include", VStr include)]) ∧
  (∀ id' include' log',
     url <$> (get_contact_by_id self http id' include' log').1 =
       url <$> (get_contact_by_id self http id include log).1 →
     id' = id) ∧
  (∀ id' include' log',
     url <$> (get_deal_by_id self http id' include' log').1 =
       url <$> (get_deal_by_id self http id include log).1 →
     id' = id) ∧
  (∀ id' include' log',
     last (url <$> (get_contact_by_id self http id' include' log').1) ≠
       last (url <$> (get_deal_by_id self http id include log).1)).
Proof.
  assert (∀ kind (a b : Z) (l l' : list request) inc inc',
            url <$> (l' ++ [request_for self (kind +:+ pretty a) inc']) =
              url <$> (l ++ [request_for self (kind +:+ pretty b) inc]) →
            a = b) as Hinj.
  { intros kind a b l l' inc inc' Heq. rewrite !fmap_app in Heq.
    apply app_inj_2 in Heq as [_ Heq]; [|done]. injection Heq as Heq.
    by do 3 apply String.app_inj in Heq; apply (inj pretty) in Heq. }
  split_and!.
  - by eexists.
  - by eexists.
  - intros id' include' log'. apply Hinj.
  - intros id' include' log'. apply Hinj.
  - intros id' include' log'. unfold get_contact_by_id, get_deal_by_id, _make_request.
    cbn beta zeta iota delta [fst]. rewrite !fmap_app. cbn [fmap list_fmap].
    rewrite !last_snoc. simpl. intros [= Heq].
    by do 2 apply String.app_inj in Heq.
Qed.

Lemma record_calls_pass_through_witness :
  url <$> (get_deal_by_id sample_service (always (Response 200 (Ok VNone)))
             (3 + 4) "owner" []).1 =
    url <$> (get_deal_by_id sample_service (always (Response 200 (Ok VNone)))
               7 "owner,contact" []).1 ∧
  3 + 4 = 7.
Proof.
  split; [reflexivity|].
  apply (proj1 (proj2 (proj2 (proj2
           (record_calls_pass_through sample_service
              (always (Response 200 (Ok VNone))) 7 "owner,contact" []))))
           (3 + 4) "owner" []).
  reflexivity.
Defined.

(** ** More on stage names *)

Lemma stage_lookup_in_table k name :
  stage_map !! k = Some name → (k, name) ∈ stage_table.
Proof. apply elem_of_list_to_map_2. Qed.

Ltac table_cases H :=
  unfold stage_table in H;
  repeat (apply elem_of_cons in H as [H|H]); [..|by apply elem_of_nil in H].

(** X13.  [_get_stage_name] raises only on a stage id that cannot be
    hashed, a list or an object, and then raises [TypeError]; every other
    id gets a name.  The table is keyed by numbers, so an id delivered as
    text is never found in it: it becomes "Stage " followed by the text,
    even when the text spells the number of a known stage. *)
Theorem stage_name_of_any_value (stage_id : value) :
  match stage_id with
  | VList _ | VDict _ => _get_stage_name stage_id = Raise TypeError
  | VStr s => _get_stage_name stage_id = Ok ("Stage " +:+ s)
  | _ => ∃ name, _get_stage_name stage_id = Ok name
  end.
Proof.
  destruct stage_id as [| b | n | s | l | d]; try done; try (by eexists).
Qed.

(** X14.  The name tells the stage: two integer ids with the same stage
    name are the same id.  The names of the table differ from each other,
    and no fallback name "Stage n" is a name of the table. *)
Theorem stage_name_determines_id (a b : Z) :
  _get_stage_name (VInt a) = _get_stage_name (VInt b) → a = b.
Proof.
  rewrite (get_stage_name_hashed _ (KInt a)), (get_stage_name_hashed _ (KInt b)) by done.
  simpl.
  destruct (stage_map !! KInt a) as [na|] eqn:Ha;
    destruct (stage_map !! KInt b) as [nb|] eqn:Hb; simpl.
  - apply stage_lookup_in_table in Ha, Hb. intros [= ->].
    table_cases Ha. all: table_cases Hb. all: by simplify_eq.
  - apply stage_lookup_in_table in Ha. intros [= ->]. table_cases Ha. all: by simplify_eq.
  - apply stage_lookup_in_table in Hb. intros [= <-]. table_cases Hb. all: by simplify_eq.
  - intros [= H]. change (pretty a = pretty b) in H. by apply (inj pretty) in H.
Qed.

Lemma stage_name_determines_id_witness :
  _get_stage_name (VInt 999) = _get_stage_name (VInt (900 + 99)) ∧ 999 = 900 + 99.
Proof.
  split; [reflexivity|].
  apply (stage_name_determines_id 999 (900 + 99)). reflexivity.
Defined.

(** ** What enriching keeps *)

Lemma dict_replace_keys k v (d : list (string * value)) :
  (dict_replace k v d).*1 = d.*1.
Proof.
  induction d as [|[k' v'] d IH]; simpl; [done|].
  destruct (String.eqb k' k); simpl; [done|]. f_equal. exact IH.
Qed.

Lemma enrich_deals_pointwise m deals : ∀ deals',
  enrich_deals m deals = Ok deals' →
  Forall2 (fun deal deal' => enrich_deal m deal = Ok deal') deals deals'.
Proof.
  induction deals as [|deal deals IH]; intros deals'; simpl.
  - intros [= <-]. constructor.
  - destruct (enrich_deal m deal) as [deal'|] eqn:Hd; simpl; [|done].
    destruct (enrich_deals m deals) as [rest|] eqn:Hr; simpl; [|done].
    intros [= <-]. constructor; [done|]. by apply IH.
Qed.

(** An enriched deal is the deal it was, but for ["owner"] and
    ["deal_stage"], and it carries its stage. *)
Lemma enrich_deal_frame m deal deal' :
  enrich_deal m deal = Ok deal' →
  ∃ dd dd', deal = VDict dd ∧ deal' = VDict dd' ∧
    (∀ f, f ≠ "owner" → f ≠ "deal_stage" → dict_lookup f dd' = dict_lookup f dd) ∧
    dict_lookup "owner" dd'
      = dict_lookup "owner" (default dd (match attach_owner m deal with
                                         | Ok (VDict d1) => Some d1
                                         | _ => None
                                         end)) ∧
    staged deal'.
Proof.
  unfold enrich_deal. destruct (attach_owner m deal) as [deal1|] eqn:H1; simpl; [|done].
  intros H2.
  apply attach_owner_keeps in H1 as (dd & d1 & -> & -> & Hown & _).
  apply attach_stage_keeps in H2 as (d1' & dd' & [= <-] & -> & Hstage & Hfix).
  exists dd, dd'. split_and!; [done..| | |].
  - intros f Hf Hf'. by rewrite Hstage, Hown.
  - simpl. by apply Hstage.
  - exists dd'. split; [done|]. intros sid Hsid Ht.
    unfold attach_stage in Hfix. simpl in Hfix. rewrite Hsid in Hfix. simpl in Hfix.
    rewrite Ht in Hfix.
    destruct (_get_stage_name sid) as [name|]; simpl in Hfix; [|done].
    exists name. split; [done|]. injection Hfix as Hfix.
    rewrite <- Hfix at 1. apply dict_lookup_set_eq.
Qed.

(** X5.  Enriching a response touches nothing but its deals: the answer
    of [get_all_deals] has the keys of the server's response in the same
    order and the same value under every key other than ["deals"], so the
    users and the paging metadata reach the caller as the server sent
    them, and a response without ["deals"] gets none. *)
Theorem enrich_keeps_rest_of_response (d : list (string * value)) (result' : value) :
  enrich (VDict d) = Ok result' →
  ∃ d', result' = VDict d' ∧
        d'.*1 = d.*1 ∧
        (∀ k, k ≠ "deals" → dict_lookup k d' = dict_lookup k d) ∧
        (∀ page, more_pages page result' = more_pages page (VDict d)).
Proof.
  unfold enrich. simpl.
  destruct (py_iter (default _ (dict_lookup "users" d))) as [user_list|]; simpl; [|done].
  destruct (build_owner_map user_list ∅) as [m|]; simpl; [|done].
  destruct (py_iter (default _ (dict_lookup "deals" d))) as [deal_list|]; simpl; [|done].
  destruct (enrich_deals m deal_list) as [enriched|]; simpl; [|done].
  intros [= <-].
  assert (∀ d', d'.*1 = d.*1 →
            (∀ k, k ≠ "deals" → dict_lookup k d' = dict_lookup k d) →
            ∃ d'', VDict d' = VDict d'' ∧ d''.*1 = d.*1 ∧
              (∀ k, k ≠ "deals" → dict_lookup k d'' = dict_lookup k d) ∧
              (∀ page, more_pages page (VDict d') = more_pages page (VDict d)))
    as Hok.
  { intros d' Hkeys Hrest. exists d'. split_and!; [done..|].
    intros page. unfold more_pages, total_pages_of. simpl.
    by rewrite (Hrest "meta"). }
  destruct (default _ (dict_lookup "deals" d)); simpl; try (by apply Hok).
  apply Hok.
  - apply dict_replace_keys.
  - intros k Hk. by apply dict_lookup_replace_ne.
Qed.

Lemma enrich_keeps_rest_of_response_witness :
  ∃ d', enrich sample_response = Ok (VDict d') ∧
        d'.*1 = ["deals"; "users"] ∧
        dict_lookup "users" d' = Some (VList [user_a; user_b]).
Proof.
  destruct (enrich_keeps_rest_of_response
              [("deals", VList [VDict sample_deal]); ("users", VList [user_a; user_b])]
              _ eq_refl) as (d' & Hd' & Hkeys & Hrest & _).
  exists d'. split_and!.
  - by rewrite <- Hd'.
  - exact Hkeys.
  - by rewrite (Hrest "users").
Defined.

(** X6.  Enriching keeps the deals in place: the answer holds as many
    deals as the response, in the same order; each is the deal the server
    sent with every field but ["owner"] and ["deal_stage"] unchanged, and
    each deal with a truthy [deal_stage_id] carries the stage of that id. *)
Theorem enrich_keeps_deals_in_place (d d' : list (string * value))
    (deals : list value) :
  enrich (VDict d) = Ok (VDict d') →
  page_items "deals" d = Some deals →
  ∃ deals',
    page_items "deals" d' = Some deals' ∧
    length deals' = length deals ∧
    ∀ (i : nat) deal', deals' !! i = Some deal' →
      ∃ dd dd', deals !! i = Some (VDict dd) ∧ deal' = VDict dd' ∧
        (∀ f, f ≠ "owner" → f ≠ "deal_stage" → dict_lookup f dd' = dict_lookup f dd) ∧
        staged deal'.
Proof.
  intros Henrich Hdeals. unfold page_items in Hdeals.
  destruct (default (VList []) (dict_lookup "deals" d)) as [| | | |l|] eqn:Hl;
    try done. injection Hdeals as ->.
  unfold enrich in Henrich. simpl in Henrich. rewrite Hl in Henrich.
  destruct (py_iter (default _ (dict_lookup "users" d))) as [user_list|];
    simpl in Henrich; [|done].
  destruct (build_owner_map user_list ∅) as [m|]; simpl in Henrich; [|done].
  destruct (enrich_deals m deals) as [enriched|] eqn:He; simpl in Henrich; [|done].
  injection Henrich as <-.
  apply enrich_deals_pointwise in He.
  exists enriched. split_and!.
  - unfold page_items. destruct (dict_lookup "deals" d) as [v|] eqn:Hv.
    + by rewrite dict_lookup_replace_eq by (by rewrite Hv).
    + rewrite dict_replace_absent, Hv by done. simpl in *.
      injection Hl as <-. by apply Forall2_nil_inv_l in He as ->.
  - symmetry. by eapply Forall2_length.
  - intros i deal' Hi.
    destruct (Forall2_lookup_r _ _ _ _ _ He Hi) as (deal & Hdeal & Hstep).
    apply enrich_deal_frame in Hstep as (dd & dd' & -> & -> & Hframe & _ & Hstaged).
    by exists dd, dd'.
Qed.

Lemma enrich_keeps_deals_in_place_witness :
  ∃ deals',
    page_items "deals"
      [("deals", VList [VDict (dict_set "deal_stage"
                                (VDict [("id", VInt 402001815652);
                                        ("name", VStr "Closed Won")])
                                (dict_set "owner" user_b sample_deal))]);
       ("users", VList [user_a; user_b])] = Some deals' ∧
    length deals' = 1%nat.
Proof.
  destruct (enrich_keeps_deals_in_place
              [("deals", VList [VDict sample_deal]); ("users", VList [user_a; user_b])]
              _ [VDict sample_deal] eq_refl eq_refl) as (deals' & Hitems & Hlen & _).
  exists deals'. by split.
Defined.

(** X7.  The enricher attaches only users of the page, under their own
    id: when enriching changes the ["owner"] of a deal, the new owner is
    one of the users the lookup was built from, the deal's [owner_id] is
    truthy, and it hashes to the key that user's id hashes to. *)
Theorem attached_owner_is_a_user (users : list value) (m : gmap key value)
    (d d' : list (string * value)) :
  build_owner_map users ∅ = Ok m →
  enrich_deal m (VDict d) = Ok (VDict d') →
  dict_lookup "owner" d' = dict_lookup "owner" d ∨
  ∃ user oid k,
    user ∈ users ∧ dict_lookup "owner" d' = Some user ∧
    dict_lookup "owner_id" d = Some oid ∧ truthy oid = true ∧
    py_hash oid = Ok k ∧ user_key user = Some k.
Proof.
  intros Hm Hd.
  apply enrich_deal_frame in Hd as (dd & dd' & [= <-] & [= <-] & _ & Hown & _).
  rewrite Hown. clear Hown. unfold attach_owner. simpl.
  destruct (dict_lookup "owner_id" d) as [oid|] eqn:Hoid; simpl; [|by left].
  destruct (truthy oid) eqn:Ht; [|by left].
  destruct (py_hash oid) as [k|] eqn:Hk; simpl; [|by left].
  destruct (m !! k) as [user|] eqn:Hu; simpl; [|by left].
  right. exists user, oid, k.
  rewrite (build_owner_map_lookup _ _ _ k Hm), lookup_empty in Hu.
  destruct (last_user k users) as [u|] eqn:Hlast; [|done]. injection Hu as ->.
  unfold last_user in Hlast. apply last_Some_elem_of in Hlast.
  apply list_elem_of_filter in Hlast as [Hkey Hin].
  split_and!; [done| |done..]. apply dict_lookup_set_eq.
Qed.

Lemma attached_owner_is_a_user_witness :
  dict_lookup "owner" sample_deal = None ∧
  ∃ user, user ∈ [user_a; user_b] ∧ user_key user = Some (KInt 5).
Proof.
  split; [reflexivity|].
  destruct (attached_owner_is_a_user [user_a; user_b] {[ KInt 5 := user_b ]}
              sample_deal
              (dict_set "deal_stage"
                 (VDict [("id", VInt 402001815652); ("name", VStr "Closed Won")])
                 (dict_set "owner" user_b sample_deal)))
    as [Hsame|(user & oid & k & Hin & _ & Hoid & _ & Hk & Hkey)].
  - simpl. by rewrite insert_insert_eq.
  - reflexivity.
  - discriminate Hsame.
  - exists user. split; [exact Hin|].
    injection Hoid as <-. injection Hk as <-. exact Hkey.
Defined.

(** ** What the collectors send and return *)

(** A turn of the loop adds what the page yields, and only a response
    that is an object gets through a turn. *)
Lemma page_turn_adds key page all result t :
  page_turn key page all result = Ok t →
  (∃ d, result = VDict d) ∧
  match t with Break a | Next a => a end = all ++ page_yield key (Ok result).
Proof.
  destruct result as [| | | | |d]; try done. intros Hturn. split; [by eexists|].
  unfold page_turn in Hturn. simpl in *.
  destruct (truthy (default (VList []) (dict_lookup key d))); simpl in Hturn.
  - unfold list_extend in Hturn.
    destruct (py_iter (default (VList []) (dict_lookup key d))) as [l|];
      simpl in Hturn; [|done].
    destruct (dict_lookup "meta" d) as [meta|]; simpl in Hturn.
    + destruct (py_get meta "total_pages" (VInt 1)) as [tp|]; simpl in Hturn; [|done].
      by destruct (py_ge page tp) as [[]|]; simpl in Hturn; [injection Hturn as <-..|].
    + by destruct (bool_decide (1 ≤ page)); injection Hturn as <-.
  - injection Hturn as <-. by rewrite app_nil_r.
Qed.

Lemma source_turn_adds key (source : Z → result value) page all t :
  source page ≫= page_turn key page all = Ok t →
  (∃ d, source page = Ok (VDict d)) ∧
  match t with Break a | Next a => a end = all ++ page_yield key (source page).
Proof.
  destruct (source page) as [result|]; simpl; [|done].
  intros [[d ->] Hadds]%page_turn_adds. split; [by eexists|done].
Qed.

Section walks.
Context (key : string) (max_pages : Z) (rq : Z → request) (source : Z → result value).

(** A walk that returns has collected what its pages yield. *)
Lemma walk_collects page all log end_state :
  walk key max_pages rq source page all log end_state →
  ∀ items, end_state.2 = Ok items →
  ∃ n : nat,
    end_state.1 = log ++ (rq <$> seqZ page (Z.of_nat n)) ∧
    items = all ++ concat ((fun p => page_yield key (source p)) <$> seqZ page (Z.of_nat n)) ∧
    ∀ p, page ≤ p < page + Z.of_nat n → ∃ d, source p = Ok (VDict d).
Proof.
  induction 1 as [page all log Hgt|page all log e Hle Hturn
                 |page all log all' Hle Hturn
                 |page all log all' end_state Hle Hturn _ IH]; intros items Hitems.
  - injection Hitems as <-. exists 0%nat. split_and!; [by rewrite !app_nil_r..|lia].
  - done.
  - injection Hitems as <-. apply source_turn_adds in Hturn as [Hd ->].
    exists 1%nat. split_and!; [done|by simpl; rewrite app_nil_r|].
    intros p Hp. by replace p with page by lia.
  - destruct (IH items Hitems) as (n & Hlog & -> & Hd).
    apply source_turn_adds in Hturn as [Hd0 Hall']. simpl in Hall'. subst all'.
    exists (S n). split_and!.
    + by rewrite Hlog, seqZ_succ, fmap_cons, <- app_assoc.
    + by rewrite seqZ_succ, fmap_cons, concat_cons, !app_assoc.
    + intros p Hp. destruct (decide (p = page)) as [->|]; [done|]. apply Hd. lia.
Qed.

(** A walk sends no more requests than there are pages up to
    [max_pages]. *)
Lemma walk_log_bound page all log end_state :
  walk key max_pages rq source page all log end_state →
  (length end_state.1 ≤ length log + Z.to_nat (max_pages - page + 1))%nat.
Proof.
  induction 1 as [| | |page all log all' end_state Hle Hturn _ IH]; simpl;
    rewrite ?length_app; simpl; try lia.
  rewrite length_app in IH. simpl in IH. lia.
Qed.

(** A walk only ever adds to the log and to the collection. *)
Lemma walk_extends page all log end_state :
  walk key max_pages rq source page all log end_state →
  log `prefix_of` end_state.1 ∧
  ∀ items, end_state.2 = Ok items → all `prefix_of` items.
Proof.
  induction 1 as [page all log Hgt|page all log e Hle Hturn
                 |page all log all' Hle Hturn
                 |page all log all' end_state Hle Hturn _ [IHlog IHall]]; simpl.
  - split; [done|]. by intros items [= <-].
  - split; [by apply prefix_app_r|done].
  - split; [by apply prefix_app_r|]. intros items [= <-].
    apply source_turn_adds in Hturn as [_ ->]. by apply prefix_app_r.
  - split.
    + etrans; [|exact IHlog]. by apply prefix_app_r.
    + intros items Hitems. etrans; [|by apply IHall].
      apply source_turn_adds in Hturn as [_ ->]. by apply prefix_app_r.
Qed.
End walks.

(** With a larger bound the walk goes the same way, and further. *)
Lemma walk_mono key rq source max_pages max_pages' page all log end_state :
  walk key max_pages rq source page all log end_state →
  max_pages ≤ max_pages' →
  ∀ items, end_state.2 = Ok items →
  ∀ end_state', walk key max_pages' rq source page all log end_state' →
    end_state.1 `prefix_of` end_state'.1 ∧
    ∀ items', end_state'.2 = Ok items' → items `prefix_of` items'.
Proof.
  induction 1 as [page all log Hgt|page all log e Hle Hturn
                 |page all log all' Hle Hturn
                 |page all log all' end_state Hle Hturn _ IH];
    intros Hmax items Hitems end_state' Hwalk'; simpl in *.
  - injection Hitems as <-. by apply (walk_extends _ _ _ _ _ _ _ _ Hwalk').
  - done.
  - injection Hitems as <-.
    inversion Hwalk' as [? ? ? Hgt|? ? ? ? _ Hturn'|? ? ? ? _ Hturn'
                        |? ? ? ? ? _ Hturn' _]; subst; simpl.
    + lia.
    + congruence.
    + rewrite Hturn in Hturn'. injection Hturn' as <-. split; [done|].
      by intros items' [= <-].
    + congruence.
  - inversion Hwalk' as [? ? ? Hgt|? ? ? ? _ Hturn'|? ? ? ? _ Hturn'
                        |? ? ? ? ? _ Hturn' Hrest]; subst; simpl.
    + lia.
    + congruence.
    + congruence.
    + rewrite Hturn in Hturn'. injection Hturn' as <-. by apply IH.
Qed.

Lemma requests_length self res n : length (requests self res n) = n.
Proof. unfold requests. rewrite length_fmap, length_seqZ. lia. Qed.

Lemma requests_inj self res n n' :
  requests self res n = requests self res n' → n = n'.
Proof. intros H. by rewrite <- (requests_length self res n), H, requests_length. Qed.

Lemma elem_of_requests self res n rq :
  rq ∈ requests self res n ↔
  ∃ page, rq = page_request self res page ∧ 1 ≤ page ≤ Z.of_nat n.
Proof.
  unfold requests. rewrite list_elem_of_fmap. split.
  - intros (page & -> & Hpage%elem_of_seqZ). exists page. split; [done|lia].
  - intros (page & -> & Hpage). exists page. split; [done|].
    apply elem_of_seqZ. lia.
Qed.

(** The requests of a collection: pages [1 .. n], [n] within the bound. *)
Lemma collect_log_bounded self http res max_pages :
  ∃ (n : nat) outcome,
    collect self http res max_pages = Some (requests self res n, outcome) ∧
    Z.of_nat n ≤ Z.max 0 max_pages ∧
    walk (item_key res) max_pages (page_request self res) (page_source self http res)
      1 [] [] (requests self res n, outcome).
Proof.
  destruct (collect_returns self http res max_pages) as ([log outcome] & -> & Hwalk).
  pose proof (walk_log_bound _ _ _ _ _ _ _ _ Hwalk) as Hbound.
  destruct (walk_trace _ _ _ _ _ _ _ _ Hwalk) as (n & Hlog & _). simpl in *.
  subst log. change (page_request self res <$> seqZ 1 (Z.of_nat n))
    with (requests self res n) in *.
  exists n, outcome. split_and!; [done| |done].
  rewrite requests_length in Hbound. lia.
Qed.

(** X8.  Whatever the server answers, a collector asks for pages
    [1, 2, ..., n] in that order, one request each and none twice, and
    for no more than [max_pages] of them; with a [max_pages] of zero or
    less it sends nothing and returns the empty list. *)
Theorem collect_sends_consecutive_pages self http res max_pages :
  ∃ (n : nat) outcome,
    collect self http res max_pages = Some (requests self res n, outcome) ∧
    Z.of_nat n ≤ Z.max 0 max_pages ∧
    NoDup (requests self res n) ∧
    (max_pages ≤ 0 → n = 0%nat ∧ outcome = Ok []).
Proof.
  destruct (collect_log_bounded self http res max_pages)
    as (n & outcome & Hrun & Hn & Hwalk).
  exists n, outcome. split_and!; [done..| |].
  - unfold requests. apply NoDup_fmap_2; [|apply NoDup_seqZ].
    intros page page'. apply page_request_inj.
  - intros Hmax. split; [lia|].
    inversion Hwalk; subst; done || lia.
Qed.

Lemma collect_sends_consecutive_pages_witness :
  ∃ (n : nat) outcome,
    collect sample_service (serve (VDict <$> three_pages)) Contacts 0
      = Some (requests sample_service Contacts n, outcome) ∧
    n = 0%nat ∧ outcome = Ok [].
Proof.
  destruct (collect_sends_consecutive_pages sample_service
              (serve (VDict <$> three_pages)) Contacts 0)
    as (n & outcome & Hrun & _ & _ & Hzero).
  exists n, outcome. split; [exact Hrun|]. apply Hzero. lia.
Defined.

(** X2.  A service built by [__init__] talks to the CRM of its domain
    only, and with its key: every request a collector sends carries the
    token header made from the API key and goes to the view address under
    [https://<domain>.myfreshworks.com/crm/sales/api], asking for a page
    between 1 and [max_pages] with 100 records per page. *)
Theorem configured_service_requests (getenv : string → option string)
    (svc : FreshworksService) (http : client) (res : resource) (max_pages : Z)
    (dom api : string) :
  configured getenv dom api →
  __init__ getenv = Ok svc →
  ∃ log outcome,
    collect svc http res max_pages = Some (log, outcome) ∧
    ∀ rq, rq ∈ log →
      headers rq = [("Authorization", "Token token=" +:+ api);
                    ("Content-Type", "application/json")] ∧
      ∃ page,
        1 ≤ page ≤ max_pages ∧
        url rq = ("https://" +:+ dom +:+ ".myfreshworks.com/crm/sales/api") +:+ "/" +:+
                  match res with
                  | Contacts =>
                      "contacts/view/"
                        +:+ default "402014829835" (getenv "CONTACTS_VIEW_ID")
                  | Deals =>
                      "deals/view/"
                        +:+ default "402014829847" (getenv "DEALS_VIEW_ID")
                  end ∧
        dict_lookup "page" (params rq) = Some (VInt page) ∧
        dict_lookup "per_page" (params rq) = Some (VInt 100).
Proof.
  intros (Hdom & Hne & Hapi & Hne') Hinit.
  destruct (collect_log_bounded svc http res max_pages) as (n & outcome & -> & Hn & _).
  eexists _, outcome. split; [done|].
  intros rq (page & -> & Hpage)%elem_of_requests.
  unfold __init__ in Hinit. rewrite Hdom, Hapi in Hinit.
  apply String.eqb_neq in Hne, Hne'. rewrite Hne, Hne' in Hinit. simpl in Hinit.
  injection Hinit as <-.
  split; [by destruct res|]. exists page. split; [lia|]. by destruct res.
Qed.

Lemma configured_service_requests_witness :
  ∃ svc log outcome,
    __init__ sample_env = Ok svc ∧
    collect svc (serve deal_pages) Deals 5 = Some (log, outcome) ∧
    ∀ rq, rq ∈ log →
      url rq = "https://acme.myfreshworks.com/crm/sales/api/deals/view/77".
Proof.
  destruct (__init__ sample_env) as [svc|] eqn:Hinit; [|discriminate Hinit].
  destruct (configured_service_requests sample_env svc (serve deal_pages) Deals 5
              "acme" "k3y") as (log & outcome & Hrun & Hlog); [by split_and!|done|].
  exists svc, log, outcome. split_and!; [done..|].
  intros rq Hrq. by destruct (Hlog rq Hrq) as (_ & page & _ & -> & _).
Defined.

(** X9.  A collector that returns has returned what the pages it fetched
    hold, whatever ended the walk: the list is the concatenation, in page
    order, of what each fetched page yields, and every fetched page was a
    JSON object.  Nothing is dropped, added or merged on the way. *)
Theorem collect_returns_what_pages_hold self http res max_pages (n : nat) items :
  collect self http res max_pages = Some (requests self res n, Ok items) →
  items = concat ((fun page => page_yield (item_key res) (page_source self http res page))
                    <$> seqZ 1 (Z.of_nat n)) ∧
  ∀ page, 1 ≤ page ≤ Z.of_nat n → ∃ d, page_source self http res page = Ok (VDict d).
Proof.
  intros Hrun.
  destruct (collect_returns self http res max_pages) as (end_state & Hrun' & Hwalk).
  rewrite Hrun in Hrun'. injection Hrun' as <-.
  destruct (walk_collects _ _ _ _ _ _ _ _ Hwalk items eq_refl) as (n' & Hlog & -> & Hd).
  simpl in Hlog. apply requests_inj in Hlog as <-.
  split; [done|]. intros page Hpage. apply Hd. lia.
Qed.

Lemma collect_returns_what_pages_hold_witness :
  [item 1; item 2; item 2; item 3] =
    concat ((fun page => page_yield "contacts"
               (page_source sample_service (serve (VDict <$> three_pages)) Contacts page))
              <$> seqZ 1 2).
Proof.
  apply (collect_returns_what_pages_hold sample_service
           (serve (VDict <$> three_pages)) Contacts 2 2). reflexivity.
Defined.

(** The characters of a text, put together again, are the text. *)
Lemma code_points_concat s : foldr String.append EmptyString (code_points s) = s.
Proof.
  induction s as [|c s IH]; [done|]. cbn [code_points].
  destruct (code_points s) as [|g gs]; [by rewrite <- IH|].
  cbn [foldr] in IH. destruct (continues s); cbn [foldr].
  - change (String c (g +:+ foldr String.append EmptyString gs) = String c s).
    by rewrite IH.
  - change (String c (g +:+ foldr String.append EmptyString gs) = String c s).
    by rewrite IH.
Qed.

(** A text that is not empty has a first character. *)
Lemma chars_begin c s : ∃ g gs, chars (String c s) = VStr g :: gs.
Proof.
  unfold chars. simpl. destruct (code_points s) as [|g gs]; [by eexists _, _|].
  destruct (continues s); by eexists _, _.
Qed.

Lemma chars_of_text :
  chars "a€b" = [VStr "a"; VStr "€"; VStr "b"] ∧ chars EmptyString = [].
Proof. split; reflexivity. Qed.

(** Items filed as a text are spread by character, not by byte. *)
Lemma text_items_spread_by_character :
  collect sample_service (serve [VDict [("contacts", VStr "€é")]]) Contacts 5 =
    Some (requests sample_service Contacts 1, Ok [VStr "€"; VStr "é"]).
Proof. reflexivity. Qed.

(** What an enriched response yields under ["deals"] is staged. *)
Lemma enrich_yields_staged result result' :
  enrich result = Ok result' → Forall staged (page_yield "deals" (Ok result')).
Proof.
  destruct result as [| | | | |d]; try done. unfold enrich. simpl.
  destruct (py_iter (default _ (dict_lookup "users" d))) as [user_list|]; simpl; [|done].
  destruct (build_owner_map user_list ∅) as [m|]; simpl; [|done].
  destruct (default (VList []) (dict_lookup "deals" d)) as [| | |s|l|dd] eqn:Hdeals;
    simpl; try done.
  - destruct s as [|c s]; [simpl; intros [= <-]; simpl; by rewrite Hdeals|].
    destruct (chars_begin c s) as (g & gs & Hchars).
    cbn [py_iter mbind result_bind]. by rewrite Hchars.
  - destruct (enrich_deals m l) as [enriched|] eqn:He; simpl; [|done].
    intros [= <-]. simpl.
    assert (Forall staged enriched) as Hstaged.
    { apply enrich_deals_pointwise in He. apply Forall_lookup. intros i deal' Hi.
      destruct (Forall2_lookup_r _ _ _ _ _ He Hi) as (deal & _ & Hstep).
      by apply enrich_deal_frame in Hstep as (? & ? & _ & _ & _ & _ & ?). }
    destruct (dict_lookup "deals" d) as [v|] eqn:Hv.
    + rewrite dict_lookup_replace_eq by (by rewrite Hv). simpl.
      by destruct enriched.
    + rewrite dict_replace_absent, Hv by done. simpl in *. by injection Hdeals as <-.
  - destruct dd as [|[k v] dd]; simpl; [|done]. intros [= <-]. simpl. by rewrite Hdeals.
Qed.

(** X15.  Every deal the paginated collector of deals returns has gone
    through the enricher: it is a JSON object, and when its
    [deal_stage_id] is truthy it carries a [deal_stage] with that id and
    the name of that stage. *)
Theorem collected_deals_are_staged self http max_pages log items :
  get_all_deals_paginated self http max_pages = Some (log, Ok items) →
  Forall staged items.
Proof.
  intros Hrun.
  destruct (collect_returns self http Deals max_pages) as (end_state & Hrun' & Hwalk).
  simpl in Hrun'. rewrite Hrun in Hrun'. injection Hrun' as <-.
  destruct (walk_collects _ _ _ _ _ _ _ _ Hwalk items eq_refl) as (n & _ & -> & _).
  simpl. apply Forall_concat, Forall_fmap, Forall_forall. intros page _. simpl.
  destruct (respond http _) as [body|]; simpl; [|done].
  destruct (enrich body) as [result'|] eqn:He; [|done].
  by apply (enrich_yields_staged body).
Qed.

Lemma collected_deals_are_staged_witness :
  Forall staged
    [VDict (dict_set "deal_stage"
              (VDict [("id", VInt 402001815652); ("name", VStr "Closed Won")])
              (dict_set "owner" user_a sample_deal));
     VDict zero_stage_deal].
Proof.
  apply (collected_deals_are_staged sample_service (serve deal_pages) 5
           (requests sample_service Deals 2)).
  reflexivity.
Defined.



(** X11.  Metadata that is present but no object is not replaced by the
    default: a page that holds items and files [null], a number, a text
    or a list under ["meta"] makes the collector raise [AttributeError]. *)
Theorem non_object_meta_raises self http res max_pages pages last l meta :
  fetched (page_source self http res) (pages ++ [last]) →
  all_go_on (item_key res) pages →
  Z.of_nat (length pages) < max_pages →
  page_items (item_key res) last = Some l → l ≠ [] →
  dict_lookup "meta" last = Some meta →
  match meta with VDict _ => False | _ => True end →
  collect self http res max_pages =
    Some (requests self res (S (length pages)), Raise AttributeError).
Proof.
  intros Hf Hon Hmax Hl Hne Hmeta Hnot. rewrite collect_unfold.
  apply (paginated_pages_raise _ _ _ _ _ (fetch_page_run self http res) pages last);
    [done..|].
  intros all. rewrite (page_turn_items _ _ _ _ l Hl).
  destruct l as [|x l]; [done|].
  unfold more_pages, total_pages_of. simpl. rewrite Hmeta. simpl.
  by destruct meta.
Qed.

Lemma non_object_meta_raises_witness :
  collect sample_service (serve [VDict null_meta_page]) Contacts 100 =
    Some (requests sample_service Contacts 1, Raise AttributeError).
Proof.
  apply (non_object_meta_raises sample_service (serve [VDict null_meta_page])
           Contacts 100 [] null_meta_page [item 9] VNone).
  - by intros [|i] d; intros [= <-].
  - by intros i d.
  - simpl. lia.
  - reflexivity.
  - done.
  - reflexivity.
  - exact I.
Defined.

(** X12.  Raising [max_pages] never loses anything: when a collection
    returns with one bound, the collection with a larger bound against
    the same server sends the same requests first, and if it returns, its
    list starts with the list of the smaller collection. *)
Theorem larger_max_pages_extends self http res max_pages max_pages' log items :
  max_pages ≤ max_pages' →
  collect self http res max_pages = Some (log, Ok items) →
  ∃ log' outcome',
    collect self http res max_pages' = Some (log', outcome') ∧
    log `prefix_of` log' ∧
    ∀ items', outcome' = Ok items' → items `prefix_of` items'.
Proof.
  intros Hmax Hrun.
  destruct (collect_returns self http res max_pages) as (end_state & Hrun1 & Hwalk).
  rewrite Hrun in Hrun1. injection Hrun1 as <-.
  destruct (collect_returns self http res max_pages')
    as ([log' outcome'] & Hrun' & Hwalk').
  exists log', outcome'. split; [done|].
  by apply (walk_mono _ _ _ _ _ _ _ _ _ Hwalk Hmax items eq_refl _ Hwalk').
Qed.

Lemma larger_max_pages_extends_witness :
  ∃ log' outcome',
    collect sample_service (serve (VDict <$> three_pages)) Contacts 100
      = Some (log', outcome') ∧
    requests sample_service Contacts 2 `prefix_of` log' ∧
    ∀ items', outcome' = Ok items' →
      [item 1; item 2; item 2; item 3] `prefix_of` items'.
Proof.
  apply (larger_max_pages_extends sample_service (serve (VDict <$> three_pages))
           Contacts 2 100); [lia|reflexivity].
Defined.
